(** * Wechaty: lifecycle, puppet event bridge, plugins and moment posting

    A shallow embedding of [src/wechaty.ts] (class [Wechaty]) and of
    [src/user-modules/moment.ts] (class [MomentMixin]).

    Asynchronous methods are embedded as programs of a small free monad
    [Prog]: the instance ([this]) is threaded as explicit state, calls that
    leave the two files (the puppet, the memory card, the io client, the
    entity classes of [./user/mod]) are [Call] nodes answered by an
    environment, emitted events are recorded as observations, and [throw] /
    [try]-[catch] are [Throw] / [try_catch].  Logging ([log.*],
    [console.error], [Raven.captureException]) is left out; the call of
    [config.systemPuppetName()] made to compute an argument of the log
    line of [start] and [stop] is kept.  The other arguments of log lines
    read fields, [this.version()] (a constant of this file) or
    [listenerCount] of Node's [EventEmitter], which only counts. *)

From Stdlib Require Import String List Bool ZArith Lia.
From ExtLib Require Import Structures.Monad Structures.MonadState Structures.MonadExc.
Import ListNotations.
Import MonadNotation.
Local Open Scope string_scope.
Local Open Scope list_scope.
Local Open Scope monad_scope.

Set Implicit Arguments.

(** ** Values shared by both files *)

(** A JavaScript [Error]; only its message matters here. *)
Inductive Error : Type := MkError (message : string).

(** [FileBox], [UrlLink] payloads and [MiniProgram] payloads are opaque
    carriers; they are named by a string. *)
Definition FileBox := string.
Definition UrlLinkPayload := string.
Definition MiniProgramPayload := string.

(** A non-empty string is truthy, [undefined] and [''] are falsy. *)
Definition truthy (s : option string) : bool :=
  match s with
  | Some EmptyString => false
  | Some _ => true
  | None => false
  end.

(** [list.includes(x)] *)
Definition includes (l : list string) (x : string) : bool :=
  existsb (String.eqb x) l.

(** ** The [StateSwitch] of the state-switch package

    [on()] / [off()] read the switch as [false | 'pending' | true];
    [on(true)], [on('pending')], [off(true)], [off('pending')] set it;
    [ready('on')] / [ready('off')] is a promise that is fulfilled once the
    switch is stably in the asked position. *)
Module StateSwitch.

Inductive Reading : Type := is_false | is_pending | is_true.
Inductive Setting : Type := stable | pending_.
Inductive Position : Type := On | Off.

Record t : Type := mk { onoff : bool; pending : bool }.

Definition create : t := mk false false.

Definition on (s : t) : Reading :=
  if onoff s then (if pending s then is_pending else is_true) else is_false.

Definition off (s : t) : Reading :=
  if onoff s then is_false else (if pending s then is_pending else is_true).

Definition set_on (v : Setting) (_ : t) : t :=
  mk true (match v with pending_ => true | stable => false end).

Definition set_off (v : Setting) (_ : t) : t :=
  mk false (match v with pending_ => true | stable => false end).

Definition truthy (r : Reading) : bool :=
  match r with is_false => false | _ => true end.

(** Whether the promise of [ready(p)] is fulfilled in state [s]. *)
Definition ready (p : Position) (s : t) : bool :=
  match p, on s, off s with
  | On, is_true, _ => true
  | Off, _, is_true => true
  | _, _, _ => false
  end.

End StateSwitch.

(** ** The instance *)

Definition MemoryCard := option string.   (* new MemoryCard(name) *)
Definition Puppet := string.
Definition Io := string.                  (* new Io({ token, wechaty }) *)
Definition EventName := string.

Record WechatyOptions : Type := {
  opt_memory        : option MemoryCard;
  opt_name          : option string;
  opt_profile       : option string;
  opt_puppet        : option string;
  opt_puppetOptions : option string;
  opt_ioToken       : option string;
}.

(** The default [options = {}] of the constructor. *)
Definition no_options : WechatyOptions :=
  Build_WechatyOptions None None None None None None.

(** The fields of a [Wechaty] object.  [listeners] is the list of event
    names for which [on] registered a listener, most recent last. *)
Record Wechaty : Type := {
  id         : string;
  options    : WechatyOptions;
  state      : StateSwitch.t;
  readyState : StateSwitch.t;
  memory     : option MemoryCard;
  lifeTimer  : option unit;
  io         : option Io;
  puppet     : option Puppet;
  listeners  : list EventName;
}.

Definition with_state (s : StateSwitch.t) (w : Wechaty) : Wechaty :=
  Build_Wechaty (id w) (options w) s (readyState w) (memory w) (lifeTimer w)
                (io w) (puppet w) (listeners w).
Definition with_readyState (s : StateSwitch.t) (w : Wechaty) : Wechaty :=
  Build_Wechaty (id w) (options w) (state w) s (memory w) (lifeTimer w)
                (io w) (puppet w) (listeners w).
Definition with_memory (m : option MemoryCard) (w : Wechaty) : Wechaty :=
  Build_Wechaty (id w) (options w) (state w) (readyState w) m (lifeTimer w)
                (io w) (puppet w) (listeners w).
Definition with_lifeTimer (t : option unit) (w : Wechaty) : Wechaty :=
  Build_Wechaty (id w) (options w) (state w) (readyState w) (memory w) t
                (io w) (puppet w) (listeners w).
Definition with_io (i : option Io) (w : Wechaty) : Wechaty :=
  Build_Wechaty (id w) (options w) (state w) (readyState w) (memory w)
                (lifeTimer w) i (puppet w) (listeners w).
Definition with_puppet (p : option Puppet) (w : Wechaty) : Wechaty :=
  Build_Wechaty (id w) (options w) (state w) (readyState w) (memory w)
                (lifeTimer w) (io w) p (listeners w).
Definition with_listener (n : EventName) (w : Wechaty) : Wechaty :=
  Build_Wechaty (id w) (options w) (state w) (readyState w) (memory w)
                (lifeTimer w) (io w) (puppet w) (listeners w ++ [n]).

(** ** Moment payloads ([moment.ts]) *)

(** Modelled from the spec: the declaration of [SayablePayload]
    ([post-sayable-payload-list.js]) is not among the sources.  The spec
    gives the Sayable item as a tagged union of Text, Image, Video,
    Url-link and Mini-program; the remaining constructors are the other
    message types a sayable can carry, all of which fall in the [default]
    branch of the conversion. *)
Inductive SayablePayload : Type :=
| SayText (payload : string)
| SayImage (payload : FileBox)
| SayVideo (payload : FileBox)
| SayUrl (payload : UrlLinkPayload)
| SayMiniProgram (payload : MiniProgramPayload)
| SayContact (payload : string)
| SayAttachment (payload : FileBox)
| SayAudio (payload : FileBox)
| SayEmoticon (payload : FileBox)
| SayLocation (payload : string)
| SayPost (payload : string).

(** [PUPPET.payload.Moment] as [generateMomentPayload] fills it. *)
Record MomentPayload : Type := {
  textMaterial      : option string;
  imageMaterialList : list FileBox;
  videoMaterial     : option FileBox;
  urlMaterial       : option UrlLinkPayload;
}.

(** [post.payload], as far as [moment.ts] reads it. *)
Record PostPayload : Type := { sayableList : list SayablePayload }.
Record PostInterface : Type := { payload : PostPayload }.

Definition convert_error : Error :=
  MkError "Can not convert sayable to moment material when create moment payload".

(** The [for ... of] loop of [generateMomentPayload]: the four local
    variables are the accumulators; the [default] branch throws. *)
Fixpoint bucket (l : list SayablePayload)
         (text : option string) (video : option FileBox)
         (url : option UrlLinkPayload) (images : list FileBox)
  : Error + MomentPayload :=
  match l with
  | [] =>
      inr {| textMaterial := text;
             imageMaterialList := images;
             videoMaterial := video;
             urlMaterial := url |}
  | item :: rest =>
      match item with
      | SayText p  => bucket rest (Some p) video url images
      | SayVideo p => bucket rest text (Some p) url images
      | SayImage p => bucket rest text video url (images ++ [p])
      | SayUrl p   => bucket rest text video (Some p) images
      | _          => inl convert_error
      end
  end.

Definition generateMomentPayload (post : PostInterface)
  : Error + MomentPayload :=
  bucket (sayableList (payload post)) None None None [].

(** ** Calls that leave the two files, and what an observer sees *)

(** [timestampToDate] ([helper-functions/pure/timestamp-to-date]) is not
    among the sources; the date it yields is kept as the uninterpreted
    image of the timestamp. *)
Inductive Date : Type := timestampToDate (timestamp : Z).

(** Every call into another module.  Entities are named by their id:
    [this.Message.load(id)] and the like return the one object of that id
    and are not calls of their own. *)
Inductive ExtCall : Type :=
| MemoryLoad                                   (* await this.memory.load() *)
| MemoryMultiplex (name : string)              (* this.memory.multiplex(name) *)
| ConfigSystemPuppetName                       (* config.systemPuppetName() *)
| PuppetManagerResolve (puppet : string) (puppetOptions : option string)
| PuppetSetMemory (p : Puppet)                 (* puppetInstance.setMemory(..) *)
| PuppetOn (p : Puppet) (eventName : string)   (* puppet.on(eventName, ..) *)
| PuppetStart (p : Puppet)
| PuppetStop (p : Puppet)
| PuppetLogonoff (p : Puppet)
| PuppetSelfId (p : Puppet)
| RoomPayloadDirty (p : Puppet) (roomId : string)
| RoomMemberPayloadDirty (p : Puppet) (roomId : string)
| MomentPost (p : Puppet) (momentPayload : MomentPayload)
| IoStart (i : Io)
| IoStop (i : Io)
| FriendshipReady (friendshipId : string)      (* await friendship.ready() *)
| FriendshipContact (friendshipId : string)    (* friendship.contact() *)
| ContactSelfReady (contactId : string)
| ContactReady (contactId : string)
| MessageReady (messageId : string)
| MessageRoom (messageId : string)             (* msg.room() *)
| RoomSync (roomId : string)
| PostReady (postId : string).

(** What a call returns when it does not throw. *)
Definition ret_type (c : ExtCall) : Type :=
  match c with
  | ConfigSystemPuppetName   => string
  | PuppetManagerResolve _ _ => Puppet
  | PuppetLogonoff _         => bool
  | PuppetSelfId _           => option string
  | MomentPost _ _           => option string
  | FriendshipContact _      => string
  | MessageRoom _            => option string
  | _                        => unit
  end.

(** The calls whose result is a promise that the caller awaits. *)
Definition is_async (c : ExtCall) : bool :=
  match c with
  | MemoryLoad | PuppetManagerResolve _ _ | PuppetStart _ | PuppetStop _
  | RoomPayloadDirty _ _ | RoomMemberPayloadDirty _ _ | MomentPost _ _
  | IoStart _ | IoStop _ | FriendshipReady _ | ContactSelfReady _
  | ContactReady _ | MessageReady _ | RoomSync _ | PostReady _ => true
  | _ => false
  end.

(** The hydrations: [ready()] and [sync()] of an entity. *)
Definition is_hydration (c : ExtCall) : bool :=
  match c with
  | FriendshipReady _ | ContactSelfReady _ | ContactReady _
  | MessageReady _ | RoomSync _ | PostReady _ => true
  | _ => false
  end.

Inductive Outcome (A : Type) : Type :=
| Returns (a : A)
| Throws (e : Error).
Arguments Returns {A} a.
Arguments Throws {A} e.

(** The emitter an event is emitted on: the bot ([this.emit]), a room
    ([room.emit]) or a contact ([friendship.contact().emit]). *)
Inductive Emitter : Type :=
| OnBot
| OnRoom (roomId : string)
| OnContact (contactId : string).

(** The emitted events with their arguments. *)
Inductive Event : Type :=
| EvDong (data : option string)
| EvError (e : Error)
| EvHeartbeat (data : option string)
| EvFriendship (friendshipId : string)
| EvLogin (contactId : string)
| EvLogout (contactId : string) (reason : option string)
| EvMessage (messageId : string)
| EvReady
| EvRoomInvite (roomInvitationId : string)
| EvRoomJoin (roomId : string) (inviteeList : list string) (inviter : string) (date : Date)
| EvRoomLeave (roomId : string) (leaverList : list string) (remover : string) (date : Date)
| EvRoomTopic (roomId : string) (newTopic oldTopic : string) (changer : string) (date : Date)
| EvJoin (inviteeList : list string) (inviter : string) (date : Date)
| EvLeave (leaverList : list string) (remover : string) (date : Date)
| EvTopic (newTopic oldTopic : string) (changer : string) (date : Date)
| EvScan (qrcode : string) (status : Z) (data : option string)
| EvStart
| EvStop
| EvPuppet (p : Puppet).

(** One observation: a call with its outcome, or an emitted event.
    Listeners are outside the model and are taken to return normally: an
    emitted event is an output. *)
Inductive Obs : Type :=
| OCall (c : ExtCall) (o : Outcome (ret_type c))
| OEmit (on : Emitter) (ev : Event).

(** The environment answers each call, given everything observed so far. *)
Definition Env : Type := list Obs -> forall c : ExtCall, Outcome (ret_type c).

(** ** Programs *)

Inductive Switch : Type := TheState | TheReadyState.

Definition switch (s : Switch) (w : Wechaty) : StateSwitch.t :=
  match s with TheState => state w | TheReadyState => readyState w end.

Inductive Prog (A : Type) : Type :=
| Ret (a : A)
| Throw (e : Error)
| Get (k : Wechaty -> Prog A)
| Put (w : Wechaty) (k : Prog A)
| Emit (on : Emitter) (ev : Event) (k : Prog A)
| Call (c : ExtCall) (k : Outcome (ret_type c) -> Prog A)
| Wait (s : Switch) (p : StateSwitch.Position) (k : Prog A).
Arguments Ret {A} a.
Arguments Throw {A} e.
Arguments Get {A} k.
Arguments Put {A} w k.
Arguments Emit {A} on ev k.
Arguments Call {A} c k.
Arguments Wait {A} s p k.

Fixpoint pbind {A B} (p : Prog A) (f : A -> Prog B) : Prog B :=
  match p with
  | Ret a       => f a
  | Throw e     => Throw e
  | Get k       => Get (fun w => pbind (k w) f)
  | Put w k     => Put w (pbind k f)
  | Emit on ev k => Emit on ev (pbind k f)
  | Call c k    => Call c (fun o => pbind (k o) f)
  | Wait s p k  => Wait s p (pbind k f)
  end.

(** [try { p } catch (e) { h e }] *)
Fixpoint try_catch {A} (p : Prog A) (h : Error -> Prog A) : Prog A :=
  match p with
  | Ret a       => Ret a
  | Throw e     => h e
  | Get k       => Get (fun w => try_catch (k w) h)
  | Put w k     => Put w (try_catch k h)
  | Emit on ev k => Emit on ev (try_catch k h)
  | Call c k    => Call c (fun o => try_catch (k o) h)
  | Wait s p k  => Wait s p (try_catch k h)
  end.

#[global] Instance Monad_Prog : Monad Prog :=
  {| ret := @Ret; bind := @pbind |}.
#[global] Instance MonadExc_Prog : MonadExc Error Prog :=
  {| raise := @Throw; catch := @try_catch |}.
#[global] Instance MonadState_Prog : MonadState Wechaty Prog :=
  {| get := Get Ret; put := fun w => Put w (Ret tt) |}.

Definition modify (f : Wechaty -> Wechaty) : Prog unit :=
  w <- get ;; put (f w).

Definition emit (on : Emitter) (ev : Event) : Prog unit :=
  Emit on ev (Ret tt).

(** A call whose exception (or rejection, when awaited) propagates. *)
Definition call (c : ExtCall) : Prog (ret_type c) :=
  Call c (fun o => match o with Returns v => Ret v | Throws e => Throw e end).

(** A call whose outcome is kept, as for a promise handed to
    [Promise.all]. *)
Definition settle (c : ExtCall) : Prog (Outcome (ret_type c)) :=
  Call c Ret.

Definition wait (s : Switch) (p : StateSwitch.Position) : Prog unit :=
  Wait s p (Ret tt).

(** [this.puppet.f(..)]: reading a member of [undefined] throws. *)
Definition undefined_puppet : Error :=
  MkError "Cannot read properties of undefined".

Definition this_puppet : Prog Puppet :=
  w <- get ;;
  match puppet w with
  | Some p => ret p
  | None => raise undefined_puppet
  end.

(** The method [on]: [super.on(event, listener)] registers the
    listener. *)
Definition on (event : EventName) : Prog unit :=
  modify (with_listener event).

(** [this.emit('error', e)].  [Wechaty] extends Node's [EventEmitter],
    whose [emit] throws the error itself when no listener is registered
    for ['error']. *)
Definition emit_error (e : Error) : Prog unit :=
  w <- get ;;
  if includes (listeners w) "error" then emit OnBot (EvError e)
  else raise e.

(** ** Running one program to its end *)

Inductive Settled (A : Type) : Type :=
| Resolved (a : A)
| Rejected (e : Error)
| Blocked.            (* waits on a switch that is not in position *)
Arguments Resolved {A} a.
Arguments Rejected {A} e.
Arguments Blocked {A}.

Record Run (A : Type) : Type := mkRun {
  final   : Wechaty;
  obs     : list Obs;
  settled : Settled A;
}.

Definition observe {A} (o : Obs) (r : Run A) : Run A :=
  mkRun (final r) (o :: obs r) (settled r).

(** [run env p w hist]: the program [p] run alone on the instance [w],
    [hist] being what was observed before; [obs] of the result is what
    [p] adds. *)
Fixpoint run {A} (env : Env) (p : Prog A) (w : Wechaty) (hist : list Obs)
  : Run A :=
  match p with
  | Ret a        => mkRun w [] (Resolved a)
  | Throw e      => mkRun w [] (Rejected e)
  | Get k        => run env (k w) w hist
  | Put w' k     => run env k w' hist
  | Emit on ev k =>
      observe (OEmit on ev) (run env k w (hist ++ [OEmit on ev]))
  | Call c k     =>
      let o := env hist c in
      observe (OCall c o) (run env (k o) w (hist ++ [OCall c o]))
  | Wait s p k   =>
      if StateSwitch.ready p (switch s w) then run env k w hist
      else mkRun w [] Blocked
  end.

(** ** [MomentMixin.post] *)

Definition lift {A} (r : Error + A) : Prog A :=
  match r with inl e => raise e | inr a => ret a end.

(** [instanceToClass(this, PostImpl).load(momentId)].  [post] is a static
    method: [this] is the class, not an instance.  [instanceToClass]
    (clone-class) hands back the [constructor] of what it is given, which
    for a class is [Function]; [Function] has no [load], so the call
    throws a [TypeError] whatever the id. *)
Definition load_error : Error :=
  MkError "instanceToClass(...).load is not a function".

Definition instanceToClass_load (momentId : option string) : Prog string :=
  raise load_error.

(** The result is the id of the loaded and hydrated [PostImpl], or
    [None] for the [void] result. *)
Definition post (p : PostInterface) : Prog (option string) :=
  momentPayload <- lift (generateMomentPayload p) ;;
  pp <- this_puppet ;;
  momentId <- call (MomentPost pp momentPayload) ;;
  if truthy momentId then
    newPost <- instanceToClass_load momentId ;;
    call (PostReady newPost) ;;
    ret (Some newPost)
  else ret None.

(** ** The puppet event bridge *)

(** The events a puppet emits, with their payloads. *)
Inductive PuppetEvent : Type :=
| PDong (data : option string)
| PError (data : string)
| PHeartbeat (data : option string)
| PFriendship (friendshipId : string)
| PLogin (contactId : string) (data : option string)
| PLogout (contactId : string) (data : option string)
| PMessage (messageId : string)
| PReady
| PRoomInvite (roomInvitationId : string)
| PRoomJoin (roomId : string) (inviteeIdList : list string)
            (inviterId : string) (timestamp : Z)
| PRoomLeave (roomId : string) (removeeIdList : list string)
             (removerId : string) (timestamp : Z)
| PRoomTopic (roomId : string) (newTopic oldTopic : string)
             (changerId : string) (timestamp : Z)
| PScan (qrcode : option string) (status : Z) (data : option string)
| PReset (data : string).

Definition event_name (ev : PuppetEvent) : EventName :=
  match ev with
  | PDong _ => "dong" | PError _ => "error" | PHeartbeat _ => "heartbeat"
  | PFriendship _ => "friendship" | PLogin _ _ => "login"
  | PLogout _ _ => "logout" | PMessage _ => "message" | PReady => "ready"
  | PRoomInvite _ => "room-invite" | PRoomJoin _ _ _ _ => "room-join"
  | PRoomLeave _ _ _ _ => "room-leave" | PRoomTopic _ _ _ _ _ => "room-topic"
  | PScan _ _ _ => "scan" | PReset _ => "reset"
  end.

(** [Promise.all(list.map(c => c.ready()))]: every [ready()] is started,
    in list order; the whole rejects when one of them does (with the first
    rejection in list order). *)
Fixpoint settle_all (ids : list string) : Prog (list (Outcome unit)) :=
  match ids with
  | [] => ret []
  | c :: rest =>
      o <- settle (ContactReady c) ;;
      os <- settle_all rest ;;
      ret (o :: os)
  end.

Fixpoint first_rejection (os : list (Outcome unit)) : option Error :=
  match os with
  | [] => None
  | Throws e :: _ => Some e
  | Returns _ :: rest => first_rejection rest
  end.

Definition promise_all_ready (ids : list string) : Prog unit :=
  os <- settle_all ids ;;
  match first_rejection os with
  | Some e => raise e
  | None => ret tt
  end.

(** The listener that [initPuppetEventBridge] registers for each event
    name, applied to a payload.  No listener is registered for [reset]. *)
Definition bridge (ev : PuppetEvent) : Prog unit :=
  match ev with
  | PDong data => emit OnBot (EvDong data)
  | PError data => emit_error (MkError data)
  | PHeartbeat data => emit OnBot (EvHeartbeat data)
  | PFriendship friendshipId =>
      call (FriendshipReady friendshipId) ;;
      emit OnBot (EvFriendship friendshipId) ;;
      contact <- call (FriendshipContact friendshipId) ;;
      emit (OnContact contact) (EvFriendship friendshipId)
  | PLogin contactId _ =>
      call (ContactSelfReady contactId) ;;
      emit OnBot (EvLogin contactId)
  | PLogout contactId data =>
      call (ContactSelfReady contactId) ;;
      emit OnBot (EvLogout contactId data)
  | PMessage messageId =>
      call (MessageReady messageId) ;;
      emit OnBot (EvMessage messageId) ;;
      room <- call (MessageRoom messageId) ;;
      match room with
      | Some roomId => emit (OnRoom roomId) (EvMessage messageId)
      | None => ret tt
      end
  | PReady =>
      emit OnBot EvReady ;;
      modify (fun w => with_readyState
                         (StateSwitch.set_on StateSwitch.stable (readyState w)) w)
  | PRoomInvite roomInvitationId =>
      emit OnBot (EvRoomInvite roomInvitationId)
  | PRoomJoin roomId inviteeIdList inviterId timestamp =>
      call (RoomSync roomId) ;;
      promise_all_ready inviteeIdList ;;
      call (ContactReady inviterId) ;;
      let date := timestampToDate timestamp in
      emit OnBot (EvRoomJoin roomId inviteeIdList inviterId date) ;;
      emit (OnRoom roomId) (EvJoin inviteeIdList inviterId date)
  | PRoomLeave roomId removeeIdList removerId timestamp =>
      call (RoomSync roomId) ;;
      promise_all_ready removeeIdList ;;
      call (ContactReady removerId) ;;
      let date := timestampToDate timestamp in
      emit OnBot (EvRoomLeave roomId removeeIdList removerId date) ;;
      emit (OnRoom roomId) (EvLeave removeeIdList removerId date) ;;
      p <- this_puppet ;;
      selfId <- call (PuppetSelfId p) ;;
      match selfId with
      | Some self =>
          if truthy selfId && includes removeeIdList self
          then call (RoomPayloadDirty p roomId) ;;
               call (RoomMemberPayloadDirty p roomId)
          else ret tt
      | None => ret tt
      end
  | PRoomTopic roomId newTopic oldTopic changerId timestamp =>
      call (RoomSync roomId) ;;
      call (ContactReady changerId) ;;
      let date := timestampToDate timestamp in
      emit OnBot (EvRoomTopic roomId newTopic oldTopic changerId date) ;;
      emit (OnRoom roomId) (EvTopic newTopic oldTopic changerId date)
  | PScan qrcode status data =>
      emit OnBot (EvScan (match qrcode with
                          | Some q => q
                          | None => ""
                          end) status data)
  | PReset _ => ret tt
  end.

(** The event names for which the [switch] registers a listener. *)
Definition bridged (eventName : EventName) : bool :=
  existsb (String.eqb eventName)
    ["dong"; "error"; "heartbeat"; "friendship"; "login"; "logout";
     "message"; "ready"; "room-invite"; "room-join"; "room-leave";
     "room-topic"; "scan"].

Definition PUPPET_MEMORY_NAME : string := "puppet".

Section Lifecycle.

(** [Object.keys(PUPPET_EVENT_DICT)]; the dictionary belongs to
    wechaty-puppet. *)
Variable eventNameList : list EventName.

Fixpoint initPuppetEventBridge_loop (p : Puppet) (names : list EventName)
  : Prog unit :=
  match names with
  | [] => ret tt
  | eventName :: rest =>
      (if bridged eventName then call (PuppetOn p eventName)
       else if String.eqb eventName "reset" then ret tt
       else raise (MkError ("eventName " ++ eventName ++ " unsupported!")%string)) ;;
      initPuppetEventBridge_loop p rest
  end.

Definition initPuppetEventBridge (p : Puppet) : Prog unit :=
  initPuppetEventBridge_loop p eventNameList.

(** The assignments to the cloned entity classes concern [./user/mod]
    and are left out. *)
Definition initPuppetAccessory (p : Puppet) : Prog unit :=
  modify (with_puppet (Some p)) ;;
  emit OnBot (EvPuppet p).

Definition initPuppet : Prog unit :=
  w <- get ;;
  match puppet w with
  | Some _ => ret tt
  | None =>
      match memory w with
      | None => raise (MkError "no memory")
      | Some _ =>
          name <- (if truthy (opt_puppet (options w))
                   then ret (match opt_puppet (options w) with
                             | Some n => n
                             | None => ""
                             end)
                   else call ConfigSystemPuppetName) ;;
          call (MemoryMultiplex PUPPET_MEMORY_NAME) ;;
          puppetInstance <-
            call (PuppetManagerResolve name (opt_puppetOptions (options w))) ;;
          call (PuppetSetMemory puppetInstance) ;;
          initPuppetEventBridge puppetInstance ;;
          initPuppetAccessory puppetInstance
      end
  end.

(** [this.options.puppet || config.systemPuppetName()]: the first
    argument of the log line that opens [start] and [stop].  Logging is
    left out, but its arguments are evaluated before it is called; the
    other arguments ([this.options.name || ''], [this.version()]) call
    nothing outside this file. *)
Definition puppet_name : Prog string :=
  w <- get ;;
  if truthy (opt_puppet (options w))
  then ret (match opt_puppet (options w) with
            | Some n => n
            | None => ""
            end)
  else call ConfigSystemPuppetName.

Definition stop : Prog unit :=
  puppet_name ;;
  w <- get ;;
  if StateSwitch.truthy (StateSwitch.off (state w)) then
    wait TheState StateSwitch.Off
  else
    modify (fun w => with_readyState
              (StateSwitch.set_off StateSwitch.stable (readyState w)) w) ;;
    modify (fun w => with_state
              (StateSwitch.set_off StateSwitch.pending_ (state w)) w) ;;
    modify (fun w => match lifeTimer w with
                     | Some _ => with_lifeTimer None w
                     | None => w
                     end) ;;
    try_catch (p <- this_puppet ;; call (PuppetStop p))
              (fun _ => ret tt) ;;
    try_catch (w <- get ;;
               match io w with
               | Some i => call (IoStop i) ;; modify (with_io None)
               | None => ret tt
               end)
              (fun e => emit_error e) ;;
    modify (fun w => with_state
              (StateSwitch.set_off StateSwitch.stable (state w)) w) ;;
    emit OnBot EvStop.

(** How the [try] block of [start] is left: by falling through, or by
    the [return] of its [catch]. *)
Inductive Flow : Type := FallThrough | Return.

Definition start : Prog unit :=
  puppet_name ;;
  w <- get ;;
  if StateSwitch.truthy (StateSwitch.on (state w)) then
    wait TheState StateSwitch.On
  else
    modify (fun w => with_readyState
              (StateSwitch.set_off StateSwitch.stable (readyState w)) w) ;;
    w <- get ;;
    match lifeTimer w with
    | Some _ => raise (MkError "start() lifeTimer exist")
    | None =>
        modify (fun w => with_state
                  (StateSwitch.set_on StateSwitch.pending_ (state w)) w) ;;
        flow <- try_catch
          (w <- get ;;
           match memory w with
           | None => modify (with_memory (Some (opt_name (options w))))
           | Some _ => ret tt
           end ;;
           try_catch (call MemoryLoad) (fun _ => ret tt) ;;
           initPuppet ;;
           p <- this_puppet ;;
           call (PuppetStart p) ;;
           w <- get ;;
           (if truthy (opt_ioToken (options w)) then
              let i := match opt_ioToken (options w) with
                       | Some token => token
                       | None => ""
                       end in
              modify (with_io (Some i)) ;;
              call (IoStart i)
            else ret tt) ;;
           ret FallThrough)
          (fun e =>
             emit_error e ;;
             try_catch stop (fun e' => emit_error e') ;;
             ret Return) ;;
        match flow with
        | Return => ret tt
        | FallThrough =>
            on "heartbeat" ;;
            modify (with_lifeTimer (Some tt)) ;;
            modify (fun w => with_state
                      (StateSwitch.set_on StateSwitch.stable (state w)) w) ;;
            emit OnBot EvStart
        end
    end.

Definition ready : Prog unit :=
  wait TheReadyState StateSwitch.On.

End Lifecycle.

Definition logonoff : Prog bool :=
  try_catch (p <- this_puppet ;; call (PuppetLogonoff p))
            (fun _ => ret false).

(** ** Plugins, the constructor and the global instance *)

(** A [WechatyPluginUninstaller] is a closure; it is named by a number. *)
Definition WechatyPluginUninstaller := nat.

(** What a call [plugin(bot)] does: it may change the bot, and it returns
    [void] or an uninstaller, or throws. *)
Inductive PluginResult : Type :=
| PluginReturns (bot : Wechaty) (uninstaller : option WechatyPluginUninstaller)
| PluginThrows (bot : Wechaty) (e : Error).

Definition WechatyPlugin : Type := Wechaty -> PluginResult.

(** An argument of [use]: [WechatyPlugin | WechatyPlugin[]]. *)
Inductive PluginArg : Type :=
| OnePlugin (p : WechatyPlugin)
| PluginArray (ps : list WechatyPlugin).

(** [plugins.flat()] *)
Definition flat (plugins : list PluginArg) : list WechatyPlugin :=
  flat_map (fun a => match a with
                     | OnePlugin p => [p]
                     | PluginArray ps => ps
                     end) plugins.

(** [pluginList.forEach(plugin => plugin(this))]: the value a plugin
    returns is dropped; an exception ends the loop. *)
Fixpoint forEach_plugin (pluginList : list WechatyPlugin) (this : Wechaty)
  : Wechaty * option Error :=
  match pluginList with
  | [] => (this, None)
  | plugin :: rest =>
      match plugin this with
      | PluginReturns this' _ => forEach_plugin rest this'
      | PluginThrows this' e => (this', Some e)
      end
  end.

(** The instance method [use]; the result is [this] after the call and
    the exception that ended it, if any. *)
Definition use (plugins : list PluginArg) (this : Wechaty)
  : Wechaty * option Error :=
  forEach_plugin (flat plugins) this.

Definition installGlobalPlugin (globalPluginList : list WechatyPlugin)
           (this : Wechaty) : Wechaty * option Error :=
  forEach_plugin globalPluginList this.

(** [new Wechaty(options)]; [cuid] is the value the call [cuid()] gives. *)
Definition constructor (globalPluginList : list WechatyPlugin)
           (cuid : string) (options : option WechatyOptions)
  : Wechaty * option Error :=
  let options := match options with Some o => o | None => no_options end in
  let options :=
    if negb (truthy (opt_name options)) && truthy (opt_profile options)
    then Build_WechatyOptions (opt_memory options) (opt_profile options)
           (opt_profile options) (opt_puppet options)
           (opt_puppetOptions options) (opt_ioToken options)
    else options in
  installGlobalPlugin globalPluginList
    {| id := cuid;
       options := options;
       state := StateSwitch.create;
       readyState := StateSwitch.create;
       memory := opt_memory options;
       lifeTimer := None;
       io := None;
       puppet := None;
       listeners := [] |}.

(** The static side of the class and the objects it has created: an
    object is referred to by its index in [heap]. *)
Record Statics : Type := {
  heap             : list Wechaty;
  globalInstance   : option nat;
  globalPluginList : list WechatyPlugin;
}.

(** The static method [use]. *)
Definition static_use (plugins : list PluginArg) (s : Statics) : Statics :=
  {| heap := heap s;
     globalInstance := globalInstance s;
     globalPluginList := globalPluginList s ++ flat plugins |}.

Definition instance_error : Error :=
  MkError "instance can be only initialized once by options!".

(** The static method [instance]: the new statics and the reference it
    returns, or the exception it throws. *)
Definition instance (cuid : string) (options : option WechatyOptions)
           (s : Statics) : Statics * (Error + nat) :=
  match options, globalInstance s with
  | Some _, Some _ => (s, inl instance_error)
  | _, Some r => (s, inr r)
  | _, None =>
      match constructor (globalPluginList s) cuid options with
      | (_, Some e) => (s, inl e)
      | (w, None) =>
          let r := length (heap s) in
          ({| heap := heap s ++ [w];
              globalInstance := Some r;
              globalPluginList := globalPluginList s |}, inr r)
      end
  end.

(** ** Interleaved tasks

    Several asynchronous calls on one instance are tasks of a pool.  A
    task runs without interruption up to its next [await] ([advance]);
    the scheduler then resumes one parked task at a time ([resume]): an
    awaited call with the outcome the environment gives it (the call is
    observed when it settles), a wait on a switch once the switch is in
    position. *)

Record Paused (A : Type) : Type := mkPaused {
  p_bot  : Wechaty;
  p_obs  : list Obs;
  p_task : Prog A;
}.

Definition noticed {A} (o : Obs) (r : Paused A) : Paused A :=
  mkPaused (p_bot r) (o :: p_obs r) (p_task r).

Fixpoint advance {A} (env : Env) (p : Prog A) (w : Wechaty) (hist : list Obs)
  : Paused A :=
  match p with
  | Ret a        => mkPaused w [] (Ret a)
  | Throw e      => mkPaused w [] (Throw e)
  | Get k        => advance env (k w) w hist
  | Put w' k     => advance env k w' hist
  | Emit on ev k =>
      noticed (OEmit on ev) (advance env k w (hist ++ [OEmit on ev]))
  | Call c k     =>
      if is_async c then mkPaused w [] (Call c k)
      else
        let o := env hist c in
        noticed (OCall c o) (advance env (k o) w (hist ++ [OCall c o]))
  | Wait s p k   => mkPaused w [] (Wait s p k)
  end.

Record System : Type := mkSystem {
  bot   : Wechaty;
  hist  : list Obs;
  tasks : list (Prog unit);
}.

Definition boot (w : Wechaty) : System := mkSystem w [] [].

(** Calling an asynchronous method: its task joins the pool after running
    up to its first [await]. *)
Definition spawn (env : Env) (p : Prog unit) (s : System) : System :=
  let r := advance env p (bot s) (hist s) in
  mkSystem (p_bot r) (hist s ++ p_obs r) (tasks s ++ [p_task r]).

Fixpoint update {A} (i : nat) (x : A) (l : list A) : list A :=
  match l, i with
  | [], _ => []
  | _ :: rest, O => x :: rest
  | y :: rest, S j => y :: update j x rest
  end.

Definition resume (env : Env) (i : nat) (s : System) : System :=
  match nth_error (tasks s) i with
  | Some (Call c k) =>
      let o := env (hist s) c in
      let ob := OCall c o in
      let r := advance env (k o) (bot s) (hist s ++ [ob]) in
      mkSystem (p_bot r) (hist s ++ ob :: p_obs r) (update i (p_task r) (tasks s))
  | Some (Wait sw p k) =>
      if StateSwitch.ready p (switch sw (bot s)) then
        let r := advance env k (bot s) (hist s) in
        mkSystem (p_bot r) (hist s ++ p_obs r) (update i (p_task r) (tasks s))
      else s
  | _ => s
  end.

(** The scheduler resumes the tasks in the order of [schedule]. *)
Definition exec (env : Env) (schedule : list nat) (s : System) : System :=
  fold_left (fun s i => resume env i s) schedule s.

(** ** A program logic for [Prog]

    [wp P p w Q]: on every path of [p] from the instance [w] (whatever
    the calls answer), [P] holds of the instance each time [p] parks at an
    [await], and [Q] holds of how [p] settles, of the final instance and
    of what [p] let observe. *)
Definition Post (A : Type) : Type := Settled A -> Wechaty -> list Obs -> Prop.

Definition after {A} (o : Obs) (Q : Post A) : Post A :=
  fun s w tr => Q s w (o :: tr).

Fixpoint wp {A} (P : Wechaty -> Prop) (p : Prog A) (w : Wechaty) (Q : Post A)
  : Prop :=
  match p with
  | Ret a        => Q (Resolved a) w []
  | Throw e      => Q (Rejected e) w []
  | Get k        => wp P (k w) w Q
  | Put w' k     => wp P k w' Q
  | Emit on ev k => wp P k w (after (OEmit on ev) Q)
  | Call c k     =>
      (is_async c = true -> P w) /\
      forall o, wp P (k o) w (after (OCall c o) Q)
  | Wait s p k   =>
      P w /\
      if StateSwitch.ready p (switch s w) then wp P k w Q
      else Q Blocked w []
  end.

(** The postcondition of [p] that makes [pbind p f] satisfy [Q]. *)
Definition then_wp {A B} (P : Wechaty -> Prop) (f : A -> Prog B)
           (Q : Post B) : Post A :=
  fun s w tr =>
    match s with
    | Resolved a => wp P (f a) w (fun s' w' tr' => Q s' w' (tr ++ tr'))
    | Rejected e => Q (Rejected e) w tr
    | Blocked => Q Blocked w tr
    end.

(** The postcondition of [p] that makes [try_catch p h] satisfy [Q]. *)
Definition catch_wp {A} (P : Wechaty -> Prop) (h : Error -> Prog A)
           (Q : Post A) : Post A :=
  fun s w tr =>
    match s with
    | Rejected e => wp P (h e) w (fun s' w' tr' => Q s' w' (tr ++ tr'))
    | _ => Q s w tr
    end.



(** ** The moment conversion, in the words of the spec

    "At most one text item, one video item, an ordered list of image
    items, and at most one url-link item; any other Sayable kind is a
    hard validation error." *)

Definition convertible (item : SayablePayload) : bool :=
  match item with
  | SayText _ | SayImage _ | SayVideo _ | SayUrl _ => true
  | _ => false
  end.

Definition texts (l : list SayablePayload) : list string :=
  flat_map (fun i => match i with SayText p => [p] | _ => [] end) l.
Definition images (l : list SayablePayload) : list FileBox :=
  flat_map (fun i => match i with SayImage p => [p] | _ => [] end) l.
Definition videos (l : list SayablePayload) : list FileBox :=
  flat_map (fun i => match i with SayVideo p => [p] | _ => [] end) l.
Definition urls (l : list SayablePayload) : list UrlLinkPayload :=
  flat_map (fun i => match i with SayUrl p => [p] | _ => [] end) l.

(** The last element of a list, if it has one. *)
Definition last_item {A} (l : list A) : option A :=
  List.last (map Some l) None.

Definition empty_post : PostInterface :=
  {| payload := {| sayableList := [] |} |}.

Definition empty_moment : MomentPayload :=
  {| textMaterial := None;
     imageMaterialList := [];
     videoMaterial := None;
     urlMaterial := None |}.

(** ** Reading a list of observations *)

Definition is_emission (o : Obs) : bool :=
  match o with OEmit _ _ => true | OCall _ _ => false end.

(** An emitted bot-level [error] event. *)
Definition is_error_event (o : Obs) : bool :=
  match o with OEmit OnBot (EvError _) => true | _ => false end.

(** A hydration that was rejected. *)
Definition failed_hydration (o : Obs) : bool :=
  match o with
  | OCall c (Throws _) => is_hydration c
  | _ => false
  end.

(** The values the calls of [puppet.selfId()] returned. *)
Definition self_id (o : Obs) : list (option string) :=
  match o with
  | OCall c out =>
      match c return Outcome (ret_type c) -> list (option string) with
      | PuppetSelfId _ =>
          fun out => match out with Returns s => [s] | Throws _ => [] end
      | _ => fun _ => []
      end out
  | OEmit _ _ => []
  end.

Definition self_ids (tr : list Obs) : list (option string) :=
  flat_map self_id tr.

(** A fulfilled [contact.ready()]. *)
Definition contact_ready (contactId : string) : Obs :=
  OCall (ContactReady contactId) (Returns tt).

(** The [ready()] calls of [Promise.all] with their outcomes. *)
Definition contact_readies (ids : list string) (os : list (Outcome unit))
  : list Obs :=
  map (fun co => OCall (ContactReady (fst co)) (snd co)) (combine ids os).

Definition is_contact_ready (o : Obs) : bool :=
  match o with OCall (ContactReady _) _ => true | _ => false end.

(** A bot as [new Wechaty()] makes it when no global plugin is installed. *)
Definition fresh_bot : Wechaty := fst (constructor [] "cuid-0" None).

(** An environment in which every call throws. *)
Definition failing_env : Env :=
  fun _ c => Throws (MkError "rejected").

(** An environment in which every call returns; [selfId()] is ["bot"],
    a message is in room ["room"], a posted moment gets the id ["post"]. *)
Definition obliging_env : Env :=
  fun _ c =>
    match c return Outcome (ret_type c) with
    | ConfigSystemPuppetName   => Returns "wechaty-puppet-mock"
    | PuppetManagerResolve n _ => Returns n
    | PuppetLogonoff _         => Returns true
    | PuppetSelfId _           => Returns (Some "bot")
    | MomentPost _ _           => Returns (Some "post")
    | FriendshipContact _      => Returns "contact"
    | MessageRoom _            => Returns (Some "room")
    | MemoryLoad | MemoryMultiplex _ | PuppetSetMemory _ | PuppetOn _ _
    | PuppetStart _ | PuppetStop _ | RoomPayloadDirty _ _
    | RoomMemberPayloadDirty _ _ | IoStart _ | IoStop _
    | FriendshipReady _ | ContactSelfReady _ | ContactReady _
    | MessageReady _ | RoomSync _ | PostReady _ => Returns tt
    end.

(** No condition on parked tasks. *)
Definition anywhere : Wechaty -> Prop := fun _ => True.


(** What the bridge does of a hydration failure: the listener is
    rejected, nothing was emitted, the instance is as before. *)
Definition isolated (w : Wechaty) : Post unit :=
  fun s w' tr =>
    existsb failed_hydration tr = true ->
    (exists e, s = Rejected e) /\
    existsb is_emission tr = false /\
    w' = w.





(** ** Reading plugins and calls of [instance] *)

(** The uninstaller a call of a plugin returned, if any. *)
Definition returned (r : PluginResult) : list WechatyPluginUninstaller :=
  match r with
  | PluginReturns _ (Some u) => [u]
  | _ => []
  end.

(** The plugin that behaves as [p] but returns [void]. *)
Definition without_uninstaller (p : WechatyPlugin) : WechatyPlugin :=
  fun bot =>
    match p bot with
    | PluginReturns bot' _ => PluginReturns bot' None
    | PluginThrows bot' e => PluginThrows bot' e
    end.

Definition arg_without_uninstaller (a : PluginArg) : PluginArg :=
  match a with
  | OnePlugin p => OnePlugin (without_uninstaller p)
  | PluginArray ps => PluginArray (map without_uninstaller ps)
  end.

(** [recorded] reads off an instance the uninstallers that [use] is said
    to record: after [use(p)] they are those of before and the one [p]
    returned. *)
Definition records_uninstallers
           (recorded : Wechaty -> list WechatyPluginUninstaller) : Prop :=
  forall (p : WechatyPlugin) (this : Wechaty),
    recorded (fst (use [OnePlugin p] this)) =
    recorded this ++ returned (p this).

(** A plugin that returns the uninstaller 7 and leaves the bot alone. *)
Definition plugin_with_uninstaller : WechatyPlugin :=
  fun bot => PluginReturns bot (Some 7).

(** Successive calls of [instance] with their results. *)
Fixpoint instance_calls (calls : list (string * option WechatyOptions))
         (s : Statics) : Statics * list (Error + nat) :=
  match calls with
  | [] => (s, [])
  | (cuid, options) :: rest =>
      let (s', r) := instance cuid options s in
      let (s'', rs) := instance_calls rest s' in
      (s'', r :: rs)
  end.

(** What a call of [instance] gives once the global instance is [ref]. *)
Definition later_result (ref : nat) (call : string * option WechatyOptions)
  : Error + nat :=
  match snd call with
  | Some _ => inl instance_error
  | None => inr ref
  end.

Definition no_statics : Statics :=
  {| heap := []; globalInstance := None; globalPluginList := [] |}.

(** ** Reading what [start] and [stop] let observe *)

Definition is_start_event (o : Obs) : bool :=
  match o with OEmit OnBot EvStart => true | _ => false end.

Definition is_stop_event (o : Obs) : bool :=
  match o with OEmit OnBot EvStop => true | _ => false end.

Definition is_puppet_on (o : Obs) : bool :=
  match o with OCall (PuppetOn _ _) _ => true | _ => false end.

(** An emitted [start], [error] or [stop]. *)
Definition lifecycle_event (o : Obs) : bool :=
  is_start_event o || is_error_event o || is_stop_event o.

Definition returns {A} (o : Outcome A) : bool :=
  match o with Returns _ => true | Throws _ => false end.

(** The argument of the log line of [start] and [stop] can be evaluated
    on [w] after [hist]: the option [puppet] is a non-empty string, or
    [config.systemPuppetName()] returns. *)
Definition puppet_name_returns (env : Env) (w : Wechaty) (hist : list Obs)
  : bool :=
  truthy (opt_puppet (options w)) || returns (env hist ConfigSystemPuppetName).

(** What the evaluation of that argument lets observe. *)
Definition name_lookup (env : Env) (w : Wechaty) (hist : list Obs)
  : list Obs :=
  if truthy (opt_puppet (options w)) then []
  else [OCall ConfigSystemPuppetName (env hist ConfigSystemPuppetName)].

(** The calls of the start sequence after the loading of the memory:
    puppet initialization, puppet start, io start. *)
Definition in_start_sequence (c : ExtCall) : bool :=
  match c with
  | ConfigSystemPuppetName | MemoryMultiplex _ | PuppetManagerResolve _ _
  | PuppetSetMemory _ | PuppetOn _ _ | PuppetStart _ | IoStart _ => true
  | _ => false
  end.

(** The error of the observation, if it is one of those calls and threw. *)
Definition raised_by (o : Obs) : list Error :=
  match o with
  | OCall c (Throws e) => if in_start_sequence c then [e] else []
  | _ => []
  end.

Definition raised (tr : list Obs) : list Error := flat_map raised_by tr.

(** The event names [initPuppetEventBridge] accepts: those with a
    listener, and [reset]. *)
Definition supported (eventName : EventName) : bool :=
  bridged eventName || String.eqb eventName "reset".

Definition unsupported_error (eventName : EventName) : Error :=
  MkError ("eventName " ++ eventName ++ " unsupported!")%string.

Definition first_unsupported (names : list EventName) : option EventName :=
  find (fun n => negb (supported n)) names.

(** What the [try] block of [start] throws, read off what it let observe
    on the instance [w]: the error of the call of the start sequence that
    threw; or, when none threw and the puppet of [w] was still to be
    initialized, the refusal of the first event name of the dictionary
    that has no case.  [None]: the block is left normally. *)
Definition thrown (names : list EventName) (w : Wechaty)
           (attempt : list Obs) : option Error :=
  match raised attempt with
  | e :: _ => Some e
  | [] =>
      match puppet w with
      | Some _ => None
      | None => option_map unsupported_error (first_unsupported names)
      end
  end.

(** The state is not stably On. *)
Definition not_on (w : Wechaty) : Prop :=
  StateSwitch.on (state w) <> StateSwitch.is_true.

(** [start] went through after [attempt]: [start] is emitted last, the
    state is On, the life timer is set. *)
Definition started (w' : Wechaty) (attempt tr : list Obs) : Prop :=
  tr = attempt ++ [OEmit OnBot EvStart] /\
  StateSwitch.on (state w') = StateSwitch.is_true /\
  lifeTimer w' = Some tt.

(** The [error] event by which [start] reports a [stop()] that threw. *)
Definition reported (s : Settled unit) : list Obs :=
  match s with
  | Rejected e => [OEmit OnBot (EvError e)]
  | _ => []
  end.

(** [start] gave up after [attempt] with the error [e]: it emitted
    [error] with [e] and then ran [stop()], on an instance [w1] that it
    had left pending On; what follows the [error] event is what that
    [stop()] lets observe, and one more [error] event if it threw; the
    instance is as [stop()] leaves it.  [start] is not emitted.  Unless
    [stop()] threw, it emitted [stop] and the state is Off with no life
    timer; if it threw, it had only looked up the puppet's name for its
    log line, and the state stays pending On. *)
Definition gave_up (env : Env) (hist : list Obs) (w w' : Wechaty)
           (attempt tr : list Obs) (e : Error) : Prop :=
  exists w1 : Wechaty,
    let hist1 := hist ++ attempt ++ [OEmit OnBot (EvError e)] in
    let rs := run env stop w1 hist1 in
    tr = attempt ++
         OEmit OnBot (EvError e) :: obs rs ++ reported (settled rs) /\
    w' = final rs /\
    StateSwitch.on (state w1) = StateSwitch.is_pending /\
    lifeTimer w1 = None /\
    listeners w1 = listeners w /\
    options w1 = options w /\
    existsb is_start_event tr = false /\
    not_on w' /\
    match settled rs with
    | Resolved _ =>
        existsb is_stop_event (obs rs) = true /\
        StateSwitch.off (state w') = StateSwitch.is_true /\
        lifeTimer w' = None
    | Rejected _ => obs rs = name_lookup env w1 hist1 /\ w' = w1
    | Blocked => False
    end.

(** A bot with a listener for ['error']. *)
Definition listening_bot : Wechaty := with_listener "error" fresh_bot.

(** An environment in which [puppet.start()] is rejected and every other
    call returns. *)
Definition puppet_start_failing_env : Env :=
  fun h c =>
    match c return Outcome (ret_type c) with
    | PuppetStart _ => Throws (MkError "rejected")
    | c' => obliging_env h c'
    end.

(** The event names of wechaty-puppet's [PUPPET_EVENT_DICT]. *)
Definition puppet_event_names : list EventName :=
  ["friendship"; "login"; "logout"; "message"; "room-invite"; "room-join";
   "room-leave"; "room-topic"; "scan"; "dong"; "error"; "heartbeat";
   "ready"; "reset"].

(** An environment in which [memory.load()] is rejected and every other
    call returns. *)
Definition memory_failing_env : Env :=
  fun h c =>
    match c return Outcome (ret_type c) with
    | MemoryLoad => Throws (MkError "rejected")
    | c' => obliging_env h c'
    end.

(** An environment in which [config.systemPuppetName()] throws and every
    other call returns. *)
Definition nameless_env : Env :=
  fun h c =>
    match c return Outcome (ret_type c) with
    | ConfigSystemPuppetName => Throws (MkError "no puppet name")
    | c' => obliging_env h c'
    end.

(** A bot on which [start()] was called, then [stop()] while
    [puppet.start()] was awaited, [puppet.start()] being fulfilled before
    [puppet.stop()]. *)
Definition stopped_while_starting : System :=
  exec obliging_env [0; 1]
       (spawn obliging_env stop
              (exec obliging_env [0; 0]
                    (spawn obliging_env (start puppet_event_names)
                           (boot fresh_bot)))).

(** ** Reading a pool *)









Arguments truthy : simpl never.
Arguments includes : simpl never.
Arguments promise_all_ready : simpl never.
Arguments stop : simpl never.

(** * More of the two classes *)

(** ** [Wechaty.name], [Wechaty.reset] *)

(** [this.options.name || 'wechaty'] *)
Definition name (w : Wechaty) : string :=
  if truthy (opt_name (options w))
  then match opt_name (options w) with Some n => n | None => "" end
  else "wechaty".

(** [reset(reason)]: [await this.puppet.stop()], then
    [await this.puppet.start()]. *)
Definition reset (reason : option string) : Prog unit :=
  p <- this_puppet ;;
  call (PuppetStop p) ;;
  p' <- this_puppet ;;
  call (PuppetStart p').

(** ** The loop of [MomentMixin.timeline]

    [timeline] first awaits [puppet.momentList(pagination)]; [response]
    and [nextPageToken] below are the two fields of what that call
    returned.  The loop loads each moment and awaits its [ready()]; a
    rejected [ready()] is logged and the moment skipped ([continue]). *)
Fixpoint timeline_loop (response : list string) (momentList : list string)
  : Prog (list string) :=
  match response with
  | [] => ret momentList
  | momentId :: rest =>
      hydrated <- try_catch (call (PostReady momentId) ;; ret true)
                            (fun _ => ret false) ;;
      match hydrated with
      | true => timeline_loop rest (momentList ++ [momentId])
      | false => timeline_loop rest momentList
      end
  end.

Definition timeline_assemble (response : list string)
           (nextPageToken : option string)
  : Prog (list string * option string) :=
  momentList <- timeline_loop response [] ;;
  ret (momentList, nextPageToken).

(** ** Reading more observations *)

(** The call of an observation. *)
Definition call_of (o : Obs) : option ExtCall :=
  match o with OCall c _ => Some c | OEmit _ _ => None end.

(** The post whose [ready()] was fulfilled, if the observation is one. *)
Definition fulfilled_post (o : Obs) : list string :=
  match o with
  | OCall (PostReady postId) (Returns _) => [postId]
  | _ => []
  end.

Definition fulfilled_posts (tr : list Obs) : list string :=
  flat_map fulfilled_post tr.

(** A hydration call, whatever its outcome. *)
Definition is_hydration_obs (o : Obs) : bool :=
  match o with OCall c _ => is_hydration c | OEmit _ _ => false end.

(** No hydration is observed after an emitted event. *)
Fixpoint hydrated_first (tr : list Obs) : bool :=
  match tr with
  | [] => true
  | o :: rest =>
      (negb (is_emission o) || negb (existsb is_hydration_obs rest))
      && hydrated_first rest
  end.

Definition in_hydrated_order : Post unit :=
  fun _ _ tr => hydrated_first tr = true.

(** The instance a listener of the bridge leaves: only the listener of
    [ready] changes it, by switching [readyState] on. *)
Definition after_bridge (ev : PuppetEvent) (w : Wechaty) : Wechaty :=
  match ev with
  | PReady =>
      with_readyState (StateSwitch.set_on StateSwitch.stable (readyState w)) w
  | _ => w
  end.

Definition bridge_leaves (ev : PuppetEvent) (w : Wechaty) : Post unit :=
  fun _ w' _ => w' = after_bridge ev w.

(** What the listener of [room-join] lets observe when no hydration is
    rejected. *)
Definition joined (roomId : string) (inviteeIdList : list string)
           (inviterId : string) (timestamp : Z) : Post unit :=
  fun s _ tr =>
    existsb failed_hydration tr = false ->
    s = Resolved tt /\
    tr = OCall (RoomSync roomId) (Returns tt)
         :: map contact_ready inviteeIdList
         ++ [contact_ready inviterId;
             OEmit OnBot (EvRoomJoin roomId inviteeIdList inviterId
                                     (timestampToDate timestamp));
             OEmit (OnRoom roomId) (EvJoin inviteeIdList inviterId
                                           (timestampToDate timestamp))].

(** ** Reading the registration of the bridge *)

(** The names of a list before the first one for which [f] fails. *)
Fixpoint take_while (f : EventName -> bool) (names : list EventName)
  : list EventName :=
  match names with
  | [] => []
  | n :: rest => if f n then n :: take_while f rest else []
  end.

(** ** Reading what [stop] and [start] let observe *)

Definition is_io_stop_failure (o : Obs) : bool :=
  match o with OCall (IoStop _) (Throws _) => true | _ => false end.

Definition is_io_start (o : Obs) : bool :=
  match o with OCall (IoStart _) _ => true | _ => false end.

Definition is_puppet_start (o : Obs) : bool :=
  match o with OCall (PuppetStart _) _ => true | _ => false end.

(** A call of [initPuppet] past its guard: plugging the memory, resolving
    the puppet, registering the listeners of the bridge.  (The lookup of
    the puppet's name is not told apart from the one that [start] and
    [stop] make for their log line, and is not counted.) *)
Definition is_init_call (o : Obs) : bool :=
  match o with
  | OCall (MemoryMultiplex _) _
  | OCall (PuppetManagerResolve _ _) _ | OCall (PuppetSetMemory _) _
  | OCall (PuppetOn _ _) _ => true
  | _ => false
  end.

(** No listener of the bridge is registered after [puppet.start()] was
    called. *)
Fixpoint listeners_first (tr : list Obs) : bool :=
  match tr with
  | [] => true
  | o :: rest =>
      (negb (is_puppet_start o) || negb (existsb is_puppet_on rest))
      && listeners_first rest
  end.

(** What [stop] never does: it emits no [start], calls neither
    [puppet.on], [puppet.start] nor [io.start], initializes nothing, and
    keeps the listeners, the puppet and the options; [readyState] is off
    after it if it was before. *)
Definition stop_frame (w : Wechaty) : Post unit :=
  fun _ w' tr =>
    existsb is_start_event tr = false /\
    existsb is_puppet_on tr = false /\
    existsb is_puppet_start tr = false /\
    existsb is_io_start tr = false /\
    existsb is_init_call tr = false /\
    listeners w' = listeners w /\
    puppet w' = puppet w /\
    options w' = options w /\
    (StateSwitch.on (readyState w) = StateSwitch.is_false ->
     StateSwitch.on (readyState w') = StateSwitch.is_false).

(** What [stop] comes to on an instance [w] that is not stopped and has a
    listener for ['error']: it is rejected only by the lookup of the
    puppet's name for its log line, before it did anything; otherwise it
    resolves, having emitted [stop]. *)
Definition stop_post (w : Wechaty) : Post unit :=
  fun s w' tr =>
    stop_frame w s w' tr /\
    match s with
    | Blocked => False
    | Rejected e =>
        tr = [OCall ConfigSystemPuppetName (Throws e)] /\
        truthy (opt_puppet (options w)) = false /\
        w' = w
    | Resolved _ =>
        existsb is_stop_event tr = true /\
        StateSwitch.off (state w') = StateSwitch.is_true /\
        StateSwitch.off (readyState w') = StateSwitch.is_true /\
        lifeTimer w' = None /\
        existsb is_error_event tr = existsb is_io_stop_failure tr /\
        io w' = (if existsb is_io_stop_failure tr then io w else None)
    end.

(** What the [try] block of [start] comes to on an instance [w]:
    lifecycle state, [readyState], life timer, listeners and options are
    kept; a puppet that is set is kept and not initialized again;
    [memory.load()] is called first, whatever it answers; no [start],
    [error] or [stop] is emitted; no listener is registered on
    the puppet after [puppet.start()] was called; the block is left
    normally exactly when [thrown] says so, having called
    [puppet.start()], and [io.start()] exactly when the option [ioToken]
    is a non-empty string. *)
Definition attempt_post (names : list EventName) (w : Wechaty) : Post Flow :=
  fun s w' tr =>
    (state w' = state w /\ readyState w' = readyState w /\
     lifeTimer w' = lifeTimer w /\ listeners w' = listeners w /\
     options w' = options w) /\
    match puppet w with
    | Some p => puppet w' = Some p /\ existsb is_init_call tr = false
    | None => True
    end /\
    (exists loaded rest, tr = OCall MemoryLoad loaded :: rest) /\
    existsb lifecycle_event tr = false /\
    listeners_first tr = true /\
    match s with
    | Resolved flow =>
        flow = FallThrough /\
        thrown names w tr = None /\
        existsb is_puppet_start tr = true /\
        existsb is_io_start tr = truthy (opt_ioToken (options w))
    | Rejected e => thrown names w tr = Some e
    | Blocked => False
    end.

(** The instance on which [start] enters its [try] block: [readyState]
    switched off, the state pending On. *)
Definition armed (w : Wechaty) : Wechaty :=
  with_state (StateSwitch.set_on StateSwitch.pending_ (state w))
             (with_readyState
                (StateSwitch.set_off StateSwitch.stable (readyState w)) w).

(** The instance [start] leaves when it goes through, [w1] being the
    instance its [try] block left. *)
Definition switched_on (w1 : Wechaty) : Wechaty :=
  with_state (StateSwitch.set_on StateSwitch.stable (state w1))
             (with_lifeTimer (Some tt) (with_listener "heartbeat" w1)).

(** An environment in which [config.systemPuppetName()] returns and every
    other call throws. *)
Definition name_only_env : Env :=
  fun _ c =>
    match c return Outcome (ret_type c) with
    | ConfigSystemPuppetName => Returns "wechaty-puppet-mock"
    | _ => Throws (MkError "rejected")
    end.

(** A bot that is running: on [listening_bot], [start()] went through. *)
Definition running_bot : Wechaty :=
  final (run obliging_env (start puppet_event_names) listening_bot []).
(** * Properties *)

(** ** The program logic *)


Lemma wp_bind A B P (p : Prog A) (f : A -> Prog B) :
  forall w (Q : Post B), wp P p w (then_wp P f Q) -> wp P (pbind p f) w Q.
Proof.
  induction p as [a|e|k IH|w' k IH|on ev k IH|c k IH|s pos k IH];
    cbn; intros w Q H; auto.
  - destruct H as [H1 H2]. split; auto.
  - destruct H as [H1 H2]. split; auto.
    destruct (StateSwitch.ready pos (switch s w)); auto.
Qed.

Lemma wp_try_catch A P (p : Prog A) (h : Error -> Prog A) :
  forall w (Q : Post A), wp P p w (catch_wp P h Q) -> wp P (try_catch p h) w Q.
Proof.
  induction p as [a|e|k IH|w' k IH|on ev k IH|c k IH|s pos k IH];
    cbn; intros w Q H; auto.
  - destruct H as [H1 H2]. split; auto.
  - destruct H as [H1 H2]. split; auto.
    destruct (StateSwitch.ready pos (switch s w)); auto.
Qed.

(** Soundness for a program run alone. *)
Lemma wp_run A P (p : Prog A) (env : Env) :
  forall w hist (Q : Post A),
    wp P p w Q ->
    Q (settled (run env p w hist)) (final (run env p w hist))
      (obs (run env p w hist)).
Proof.
  induction p as [a|e|k IH|w' k IH|on ev k IH|c k IH|s pos k IH];
    cbn; intros w hist Q H.
  - exact H.
  - exact H.
  - now apply IH.
  - now apply IH.
  - apply (IH w (hist ++ [OEmit on ev]) (after (OEmit on ev) Q) H).
  - destruct H as [_ H].
    apply (IH _ w (hist ++ [OCall c (env hist c)])
              (after (OCall c (env hist c)) Q) (H _)).
  - destruct H as [_ H].
    destruct (StateSwitch.ready pos (switch s w)); [now apply IH | exact H].
Qed.



(** [run] of a sequence and of a [try]-[catch]. *)
Lemma run_bind A B (env : Env) (p : Prog A) (f : A -> Prog B) :
  forall w hist,
    run env (pbind p f) w hist =
    match settled (run env p w hist) with
    | Resolved a =>
        mkRun (final (run env (f a) (final (run env p w hist))
                          (hist ++ obs (run env p w hist))))
              (obs (run env p w hist) ++
               obs (run env (f a) (final (run env p w hist))
                        (hist ++ obs (run env p w hist))))
              (settled (run env (f a) (final (run env p w hist))
                            (hist ++ obs (run env p w hist))))
    | Rejected e =>
        mkRun (final (run env p w hist)) (obs (run env p w hist)) (Rejected e)
    | Blocked =>
        mkRun (final (run env p w hist)) (obs (run env p w hist)) Blocked
    end.
Proof.
  induction p as [a|e|k IH|w' k IH|on ev k IH|c k IH|s pos k IH];
    cbn; intros w hist.
  - rewrite app_nil_r. now destruct (run env (f a) w hist).
  - reflexivity.
  - apply IH.
  - apply IH.
  - rewrite IH. destruct (settled (run env k w _)); cbn;
      rewrite <- ?app_assoc; reflexivity.
  - rewrite IH. destruct (settled (run env (k _) w _)); cbn;
      rewrite <- ?app_assoc; reflexivity.
  - destruct (StateSwitch.ready pos (switch s w)); [apply IH | reflexivity].
Qed.

Lemma run_try_catch A (env : Env) (p : Prog A) (h : Error -> Prog A) :
  forall w hist,
    run env (try_catch p h) w hist =
    match settled (run env p w hist) with
    | Rejected e =>
        mkRun (final (run env (h e) (final (run env p w hist))
                          (hist ++ obs (run env p w hist))))
              (obs (run env p w hist) ++
               obs (run env (h e) (final (run env p w hist))
                        (hist ++ obs (run env p w hist))))
              (settled (run env (h e) (final (run env p w hist))
                            (hist ++ obs (run env p w hist))))
    | _ => run env p w hist
    end.
Proof.
  induction p as [a|e|k IH|w' k IH|on ev k IH|c k IH|s pos k IH];
    cbn; intros w hist.
  - reflexivity.
  - rewrite app_nil_r. now destruct (run env (h e) w hist).
  - apply IH.
  - apply IH.
  - rewrite IH. destruct (settled (run env k w _)) eqn:E; cbn;
      rewrite <- ?app_assoc; try reflexivity;
      destruct (run env k w _); cbn in *; now subst.
  - rewrite IH. destruct (settled (run env (k _) w _)) eqn:E; cbn;
      rewrite <- ?app_assoc; try reflexivity;
      destruct (run env (k _) w _); cbn in *; now subst.
  - destruct (StateSwitch.ready pos (switch s w)); [apply IH | reflexivity].
Qed.

(** The first call a program lets observe was answered by the environment
    on the history the program was started with. *)
Lemma obs_head A (env : Env) (p : Prog A) :
  forall w hist,
    match obs (run env p w hist) with
    | OCall c o :: _ => o = env hist c
    | _ => True
    end.
Proof.
  induction p as [a|e|k IH|w' k IH|on ev k IH|c k IH|s pos k IH];
    cbn; intros w hist; auto.
  - apply IH.
  - apply IH.
  - destruct (StateSwitch.ready pos (switch s w)); [apply IH | exact I].
Qed.

(** Symbolic execution of a program under [wp]: every outcome of every
    call is considered; [loop] is the step to take at a loop. *)
Ltac wp_step loop :=
  match goal with
  | H : ?x = _ |- context [match ?x with _ => _ end] => rewrite H
  | H : false = true |- _ => discriminate H
  | |- wp _ (match ?o with Returns _ => _ | Throws _ => _ end) _ _ =>
      destruct o
  | |- wp _ (pbind (match ?o with Returns _ => _ | Throws _ => _ end) _) _ _ =>
      destruct o
  | |- wp _ (try_catch (match ?o with Returns _ => _ | Throws _ => _ end) _) _ _ =>
      destruct o
  | |- wp _ (match ?x with Some _ => _ | None => _ end) _ _ =>
      destruct x eqn:?
  | |- wp _ (pbind (match ?x with Some _ => _ | None => _ end) _) _ _ =>
      destruct x eqn:?
  | |- wp _ (try_catch (match ?x with Some _ => _ | None => _ end) _) _ _ =>
      destruct x eqn:?
  | |- wp _ (if ?b then _ else _) _ _ => destruct b eqn:?
  | |- wp _ (pbind (if ?b then _ else _) _) _ _ => destruct b eqn:?
  | |- wp _ (try_catch (if ?b then _ else _) _) _ _ => destruct b eqn:?
  | |- then_wp _ _ _ _ _ _ => unfold then_wp
  | |- catch_wp _ _ _ _ _ _ => unfold catch_wp
  | |- after _ _ _ _ _ => unfold after
  | |- anywhere _ => exact I
  | |- not_on _ => unfold not_on; cbn; discriminate
  | |- _ /\ (forall _, _) => split
  | |- forall _, _ => intro
  | |- wp _ _ _ _ => progress cbn
  | |- wp _ _ _ _ => loop
  | |- wp _ (pbind _ _) _ _ => apply wp_bind
  | |- wp _ (try_catch _ _) _ _ => apply wp_try_catch
  end.

Ltac wp_exec loop := repeat wp_step loop.

(** ** Moment conversion and posting *)

Lemma last_cons A (l : list A) (x d : A) : List.last (x :: l) d = List.last l x.
Proof.
  revert x d. induction l as [|y l IH]; intros x d; [reflexivity|].
  change (List.last (y :: l) d = List.last (y :: l) x).
  now rewrite !IH.
Qed.

Lemma bucket_spec (l : list SayablePayload) :
  forall text video url imgs,
    bucket l text video url imgs =
    if forallb convertible l then
      inr {| textMaterial := List.last (map Some (texts l)) text;
             imageMaterialList := imgs ++ images l;
             videoMaterial := List.last (map Some (videos l)) video;
             urlMaterial := List.last (map Some (urls l)) url |}
    else inl convert_error.
Proof.
  induction l as [|item rest IH]; intros text video url imgs.
  - cbn. now rewrite app_nil_r.
  - destruct item; cbn [bucket forallb convertible andb]; try reflexivity;
      rewrite IH; destruct (forallb convertible rest); try reflexivity;
      cbn [texts images videos urls flat_map app map];
      fold (texts rest) (images rest) (videos rest) (urls rest);
      rewrite ?last_cons, <- ?app_assoc; reflexivity.
Qed.

(** C7.  [generateMomentPayload] throws exactly when the list holds an
    item that is not a text, an image, a video or a url link; otherwise
    the payload holds the last text, the last video and the last url link
    of the list, if any, and the images of the list in their order. *)
Theorem generateMomentPayload_buckets (post : PostInterface) :
  generateMomentPayload post =
  let l := sayableList (payload post) in
  if forallb convertible l then
    inr {| textMaterial := last_item (texts l);
           imageMaterialList := images l;
           videoMaterial := last_item (videos l);
           urlMaterial := last_item (urls l) |}
  else inl convert_error.
Proof.
  unfold generateMomentPayload. now rewrite bucket_spec.
Qed.

(** C4.  A post without any sayable item converts without an error to
    the moment payload that has no field populated, and [post] hands that
    payload to [puppet.momentPost]: the call is the first thing observed. *)
Theorem post_empty_reaches_backend (env : Env) (w : Wechaty) (hist : list Obs)
        (p : Puppet) :
  generateMomentPayload empty_post = inr empty_moment /\
  hd_error (obs (run env (post empty_post) (with_puppet (Some p) w) hist)) =
  Some (OCall (MomentPost p empty_moment) (env hist (MomentPost p empty_moment))).
Proof.
  split; reflexivity.
Qed.

(** ** The puppet event bridge *)

(** A listener is registered for every event of the puppet but [reset]. *)
Lemma bridged_event_name (ev : PuppetEvent) :
  bridged (event_name ev) = match ev with PReset _ => false | _ => true end.
Proof. destruct ev; reflexivity. Qed.

(** C3.  What the listener of [message] lets observe: [msg.ready()]
    first; when it is rejected, nothing else; when it is fulfilled, the
    bot-level [message] event, then the call [msg.room()], then the
    [message] event on the room exactly when [msg.room()] returned a
    room. *)
Theorem bridge_message_order (env : Env) (w : Wechaty) (hist : list Obs)
        (messageId : string) :
  let hydrated := env hist (MessageReady messageId) in
  let room :=
    env (hist ++ [OCall (MessageReady messageId) hydrated;
                  OEmit OnBot (EvMessage messageId)])
        (MessageRoom messageId) in
  obs (run env (bridge (PMessage messageId)) w hist) =
  OCall (MessageReady messageId) hydrated ::
  match hydrated with
  | Throws _ => []
  | Returns _ =>
      OEmit OnBot (EvMessage messageId) ::
      OCall (MessageRoom messageId) room ::
      match room with
      | Returns (Some roomId) => [OEmit (OnRoom roomId) (EvMessage messageId)]
      | _ => []
      end
  end.
Proof.
  cbn.
  destruct (env hist (MessageReady messageId)) as [[]|e]; cbn; [|reflexivity].
  rewrite <- app_assoc; cbn.
  destruct (env _ (MessageRoom messageId)) as [[roomId|]|e]; reflexivity.
Qed.

Lemma wp_settle_all P (ids : list string) :
  forall w (Q : Post (list (Outcome unit))),
    P w ->
    (forall os, length os = length ids ->
                Q (Resolved os) w (contact_readies ids os)) ->
    wp P (settle_all ids) w Q.
Proof.
  induction ids as [|c rest IH]; intros w Q HP HQ.
  - apply (HQ []); reflexivity.
  - cbn. split; [auto|]. intros o.
    apply wp_bind, IH; [assumption|].
    intros os Hlen. cbn. unfold after. rewrite app_nil_r.
    apply (HQ (o :: os)). cbn. now rewrite Hlen.
Qed.

Lemma contact_readies_kind (ids : list string) :
  forall os, forallb is_contact_ready (contact_readies ids os) = true.
Proof.
  induction ids as [|c rest IH]; intros [|o os]; cbn; auto.
  apply IH.
Qed.

Lemma contact_readies_fulfilled (ids : list string) :
  forall os,
    length os = length ids -> first_rejection os = None ->
    contact_readies ids os = map contact_ready ids.
Proof.
  induction ids as [|c rest IH]; intros [|o os] Hlen Hnone;
    try discriminate; [reflexivity|].
  destruct o as [[]|e]; [|discriminate].
  cbn in *. unfold contact_ready at 1. f_equal.
  apply IH; [lia | assumption].
Qed.

Lemma contact_readies_rejected (ids : list string) :
  forall os e,
    length os = length ids -> first_rejection os = Some e ->
    existsb failed_hydration (contact_readies ids os) = true.
Proof.
  induction ids as [|c rest IH]; intros [|o os] e Hlen Hsome;
    try discriminate.
  destruct o as [[]|e']; cbn in *; [|reflexivity].
  apply (IH os e); [lia | assumption].
Qed.

Lemma wp_promise_all_ready P (ids : list string) w (Q : Post unit) :
  P w ->
  Q (Resolved tt) w (map contact_ready ids) ->
  (forall tr e, forallb is_contact_ready tr = true ->
                existsb failed_hydration tr = true ->
                Q (Rejected e) w tr) ->
  wp P (promise_all_ready ids) w Q.
Proof.
  intros HP Hok Hko. unfold promise_all_ready.
  apply wp_bind, wp_settle_all; [assumption|].
  intros os Hlen. cbn.
  destruct (first_rejection os) as [e|] eqn:E; cbn; rewrite app_nil_r.
  - apply Hko; [apply contact_readies_kind|].
    now apply contact_readies_rejected with (e := e).
  - now rewrite contact_readies_fulfilled.
Qed.

Lemma contact_ready_quiet (ids : list string) :
  existsb failed_hydration (map contact_ready ids) = false /\
  existsb is_emission (map contact_ready ids) = false /\
  self_ids (map contact_ready ids) = [].
Proof.
  induction ids as [|c rest [IH1 [IH2 IH3]]]; cbn; auto.
Qed.

Lemma is_contact_ready_quiet (tr : list Obs) :
  forallb is_contact_ready tr = true ->
  existsb is_emission tr = false /\ self_ids tr = [].
Proof.
  induction tr as [|o tr IH]; cbn; auto.
  destruct o as [c out|on ev]; cbn; [|discriminate].
  destruct c; cbn; try discriminate. auto.
Qed.

Lemma wp_bridge_isolated (ev : PuppetEvent) (w : Wechaty) :
  wp anywhere (bridge ev) w (isolated w).
Proof.
  destruct ev; unfold bridge; wp_exec ltac:(apply wp_promise_all_ready).
  all: unfold isolated; cbn [existsb failed_hydration is_hydration orb].
  all: rewrite ?existsb_app, ?(proj1 (contact_ready_quiet _)).
  all: cbn [existsb failed_hydration is_hydration orb].
  all: try discriminate.
  all: intros _; split; [eauto|split; [|reflexivity]].
  all: cbn [is_emission orb];
    rewrite ?(proj1 (proj2 (contact_ready_quiet _))); try reflexivity.
  all: match goal with
       | H : forallb is_contact_ready _ = true |- _ =>
           exact (proj1 (is_contact_ready_quiet _ H))
       end.
Qed.

(** C2 (as the code has it).  When a hydration made by a listener of the
    bridge is rejected, the listener itself is rejected with nothing
    emitted: no domain event and no [error] event, and the instance is
    unchanged. *)
Theorem bridge_hydration_failure (ev : PuppetEvent) (env : Env) (w : Wechaty)
        (hist : list Obs) :
  let r := run env (bridge ev) w hist in
  existsb failed_hydration (obs r) = true ->
  (exists e, settled r = Rejected e) /\
  existsb is_emission (obs r) = false /\
  final r = w.
Proof.
  exact (@wp_run _ anywhere (bridge ev) env w hist (isolated w)
                 (wp_bridge_isolated ev w)).
Qed.

Lemma bridge_hydration_failure_witness :
  let r := run failing_env (bridge (PFriendship "f")) fresh_bot [] in
  (exists e, settled r = Rejected e) /\
  existsb is_emission (obs r) = false /\
  final r = fresh_bot.
Proof.
  apply (bridge_hydration_failure (PFriendship "f") failing_env fresh_bot []).
  reflexivity.
Defined.

(** C2 (as stated) fails: the hydration of a [message] event is rejected,
    the listener is rejected and no [error] event is emitted. *)
Lemma bridge_failure_not_reported :
  let r := run failing_env (bridge (PMessage "m")) fresh_bot [] in
  existsb failed_hydration (obs r) = true /\
  settled r = Rejected (MkError "rejected") /\
  existsb is_error_event (obs r) = false.
Proof.
  repeat split.
Qed.






(** ** [logonoff] *)

(** C10.  [logonoff] always returns a boolean and leaves the instance
    alone: what [puppet.logonoff()] returns, and [false] when the puppet
    is not set or the call throws. *)
Theorem logonoff_total (env : Env) (w : Wechaty) (hist : list Obs) :
  settled (run env logonoff w hist) =
  Resolved (match puppet w with
            | None => false
            | Some p =>
                match env hist (PuppetLogonoff p) with
                | Returns b => b
                | Throws _ => false
                end
            end) /\
  final (run env logonoff w hist) = w.
Proof.
  unfold logonoff. cbn.
  destruct (puppet w) as [p|]; cbn; [|split; reflexivity].
  destruct (env hist (PuppetLogonoff p)); split; reflexivity.
Qed.

(** ** Plugins *)

Lemma forEach_plugin_app (a b : list WechatyPlugin) :
  forall this,
    forEach_plugin (a ++ b) this =
    match forEach_plugin a this with
    | (this', Some e) => (this', Some e)
    | (this', None) => forEach_plugin b this'
    end.
Proof.
  induction a as [|p a IH]; intros this; cbn; [reflexivity|].
  destruct (p this) as [this' u|this' e]; [apply IH | reflexivity].
Qed.

Lemma forEach_plugin_without (ps : list WechatyPlugin) :
  forall this,
    forEach_plugin (map without_uninstaller ps) this = forEach_plugin ps this.
Proof.
  induction ps as [|p ps IH]; intros this; cbn; [reflexivity|].
  unfold without_uninstaller at 1.
  destruct (p this) as [this' u|this' e]; [apply IH | reflexivity].
Qed.

Lemma flat_without (plugins : list PluginArg) :
  flat (map arg_without_uninstaller plugins) =
  map without_uninstaller (flat plugins).
Proof.
  unfold flat. induction plugins as [|a rest IH]; cbn; [reflexivity|].
  rewrite map_app, IH. now destruct a.
Qed.

(** C8 (as the code has it).  [use] calls the plugins at once, one after
    the other in the order given (arrays flattened), each on the bot as
    the ones before left it, until one throws; whatever a plugin returns
    is dropped: [use] does the same when every plugin returns [void]. *)
Theorem use_in_order_dropping_uninstallers (plugins more : list PluginArg)
        (p : WechatyPlugin) (ps : list WechatyPlugin) (this : Wechaty) :
  use [OnePlugin p] this =
    match p this with
    | PluginReturns this' _ => (this', None)
    | PluginThrows this' e => (this', Some e)
    end /\
  use [PluginArray ps] this = use (map OnePlugin ps) this /\
  use (plugins ++ more) this =
    match use plugins this with
    | (this', Some e) => (this', Some e)
    | (this', None) => use more this'
    end /\
  use (map arg_without_uninstaller plugins) this = use plugins this.
Proof.
  unfold use. split; [|split; [|split]].
  - cbn. destruct (p this); reflexivity.
  - f_equal. unfold flat. cbn. rewrite app_nil_r.
    induction ps as [|q ps IH]; cbn; [reflexivity | now rewrite <- IH].
  - unfold flat. rewrite flat_map_app. apply forEach_plugin_app.
  - rewrite flat_without. apply forEach_plugin_without.
Qed.

(** C8 (as stated) fails: a plugin returns the uninstaller 7, and [use]
    leaves the bot exactly as it was; no reading of the instance gives
    back the uninstallers that plugins returned. *)
Lemma use_does_not_record_uninstaller :
  returned (plugin_with_uninstaller fresh_bot) = [7] /\
  use [OnePlugin plugin_with_uninstaller] fresh_bot = (fresh_bot, None) /\
  ~ exists recorded, records_uninstallers recorded.
Proof.
  split; [reflexivity|split; [reflexivity|]]. intros [recorded H].
  specialize (H plugin_with_uninstaller fresh_bot). cbn in H.
  apply (f_equal (@length _)) in H. rewrite length_app in H. cbn in H. lia.
Qed.

(** ** The global instance *)

Lemma instance_calls_later (ref : nat) (calls : list (string * option WechatyOptions)) :
  forall s,
    globalInstance s = Some ref ->
    instance_calls calls s = (s, map (later_result ref) calls).
Proof.
  induction calls as [|[cuid options] rest IH]; intros s Hs; [reflexivity|].
  cbn [instance_calls map]. unfold instance at 1. rewrite Hs.
  unfold later_result at 1. cbn [snd].
  destruct options as [o|]; rewrite (IH s Hs); reflexivity.
Qed.

(** C9.  When no global instance exists and the constructor does not
    throw, [instance(options)] returns a reference to a new object, the
    one [new Wechaty(options)] makes, and holds it as the global
    instance; whatever calls of [instance] follow, each returns that same
    reference when it passes no options and throws when it passes
    options, and none of them changes the global instance or an object. *)
Theorem instance_singleton (cuid : string) (options : option WechatyOptions)
        (s : Statics) (calls : list (string * option WechatyOptions)) :
  globalInstance s = None ->
  snd (constructor (globalPluginList s) cuid options) = None ->
  exists ref,
    snd (instance cuid options s) = inr ref /\
    globalInstance (fst (instance cuid options s)) = Some ref /\
    nth_error (heap (fst (instance cuid options s))) ref =
      Some (fst (constructor (globalPluginList s) cuid options)) /\
    instance_calls calls (fst (instance cuid options s)) =
      (fst (instance cuid options s), map (later_result ref) calls).
Proof.
  intros Hnone Hok. exists (length (heap s)).
  assert (E : instance cuid options s =
              ({| heap := heap s ++
                          [fst (constructor (globalPluginList s) cuid options)];
                  globalInstance := Some (length (heap s));
                  globalPluginList := globalPluginList s |},
               inr (length (heap s)))).
  { unfold instance. rewrite Hnone.
    destruct (constructor (globalPluginList s) cuid options) as [w [e|]];
      [discriminate|]. now destruct options. }
  rewrite E. cbn [fst snd heap globalInstance].
  split; [reflexivity|split; [reflexivity|split]].
  - rewrite nth_error_app2, Nat.sub_diag; [reflexivity | lia].
  - now apply instance_calls_later.
Qed.

Lemma instance_singleton_witness :
  exists ref,
    snd (instance "cuid-0" None no_statics) = inr ref /\
    globalInstance (fst (instance "cuid-0" None no_statics)) = Some ref /\
    nth_error (heap (fst (instance "cuid-0" None no_statics))) ref =
      Some (fst (constructor (globalPluginList no_statics) "cuid-0" None)) /\
    instance_calls [("cuid-1", None); ("cuid-2", Some no_options)]
                   (fst (instance "cuid-0" None no_statics)) =
      (fst (instance "cuid-0" None no_statics),
       map (later_result ref) [("cuid-1", None); ("cuid-2", Some no_options)]).
Proof.
  apply (@instance_singleton "cuid-0" None no_statics
           [("cuid-1", None); ("cuid-2", Some no_options)]); reflexivity.
Defined.

(** ** [start] and [stop] *)

Lemma raised_app (l1 l2 : list Obs) :
  raised (l1 ++ l2) = raised l1 ++ raised l2.
Proof. apply flat_map_app. Qed.

Lemma wp_initPuppetEventBridge_loop P (p : Puppet) (names : list EventName) :
  forall w (Q : Post unit),
    (forall tr, forallb is_puppet_on tr = true ->
                raised tr = [] ->
                first_unsupported names = None ->
                Q (Resolved tt) w tr) ->
    (forall tr e, forallb is_puppet_on tr = true ->
                  match raised tr with
                  | e' :: _ => Some e'
                  | [] => option_map unsupported_error (first_unsupported names)
                  end = Some e ->
                  Q (Rejected e) w tr) ->
    wp P (initPuppetEventBridge_loop p names) w Q.
Proof.
  induction names as [|n rest IH]; intros w Q Hok Hko.
  - now apply Hok.
  - cbn [initPuppetEventBridge_loop bind Monad_Prog]. apply wp_bind.
    unfold first_unsupported in *. cbn [find] in *. unfold supported in *.
    destruct (bridged n).
    + cbn. split; [discriminate|]. intros [[]|e]; cbn; unfold after.
      * apply IH.
        -- intros tr H1 H2 H3. apply Hok; cbn; assumption.
        -- intros tr e H1 H2. apply Hko; cbn; assumption.
      * now apply Hko.
    + destruct (String.eqb n "reset"); cbn.
      * apply IH; auto.
      * now apply Hko.
Qed.

Lemma puppet_on_quiet (tr : list Obs) :
  forallb is_puppet_on tr = true ->
  existsb lifecycle_event tr = false /\
  existsb is_puppet_start tr = false /\
  existsb is_io_start tr = false.
Proof.
  induction tr as [|o tr IH]; cbn; auto.
  destruct o as [c out|on ev]; cbn; [|discriminate].
  destruct c; cbn; try discriminate. auto.
Qed.

Lemma puppet_on_listeners_first (seg rest : list Obs) :
  forallb is_puppet_on seg = true ->
  listeners_first (seg ++ rest) = listeners_first rest.
Proof.
  induction seg as [|o seg IH]; cbn; [reflexivity|].
  destruct o as [c out|on ev]; cbn; [|discriminate].
  destruct c; cbn; try discriminate. exact IH.
Qed.

Lemma listeners_first_app (l1 l2 : list Obs) :
  existsb is_puppet_on l2 = false ->
  listeners_first (l1 ++ l2) = listeners_first l1.
Proof.
  intros H. induction l1 as [|o l1 IH]; cbn.
  - induction l2 as [|o l2 IH]; cbn; [reflexivity|].
    cbn in H. apply orb_false_iff in H as [H1 H2].
    rewrite H2, (IH H2). cbn. now rewrite orb_true_r.
  - now rewrite existsb_app, H, orb_false_r, IH.
Qed.

(** *** [stop] *)

Lemma wp_stop (w : Wechaty) :
  StateSwitch.off (state w) = StateSwitch.is_false ->
  includes (listeners w) "error" = true ->
  wp not_on stop w (stop_post w).
Proof.
  intros Hoff Herr.
  assert (Hoff' : StateSwitch.truthy (StateSwitch.off (state w)) = false)
    by now rewrite Hoff.
  unfold stop, puppet_name, emit_error. cbn.
  destruct (lifeTimer w) eqn:Et; wp_exec fail.
  all: unfold stop_post, stop_frame; cbn; repeat split; auto.
Qed.

(** *** [start] *)

Lemma run_puppet_name (env : Env) (w : Wechaty) (hist : list Obs) :
  puppet_name_returns env w hist = true ->
  exists n, run env puppet_name w hist =
            mkRun w (name_lookup env w hist) (Resolved n).
Proof.
  unfold puppet_name_returns, puppet_name, name_lookup. cbn.
  destruct (truthy (opt_puppet (options w))); cbn.
  - intros _. eexists. reflexivity.
  - destruct (env hist ConfigSystemPuppetName) as [n|e]; cbn;
      [|discriminate].
    intros _. eexists. reflexivity.
Qed.

Ltac attempt_leaf :=
  unfold attempt_post, thrown, raised in *;
  repeat match goal with
         | H : forallb is_puppet_on ?tr = true |- _ =>
             destruct (puppet_on_quiet _ H) as (? & ? & ?);
             pose proof (fun rest => puppet_on_listeners_first _ rest H);
             pose proof (eq_trans (f_equal listeners_first
                                           (eq_sym (app_nil_r _)))
                                  (puppet_on_listeners_first _ [] H));
             clear H
         end;
  cbn; rewrite <- ?app_assoc;
  rewrite ?flat_map_app, ?existsb_app, ?app_nil_r; cbn;
  repeat match goal with
         | H : existsb _ _ = _ |- _ => rewrite H
         | H : flat_map _ _ = _ |- _ => rewrite H
         | H : puppet _ = _ |- _ => rewrite H
         | H : truthy _ = _ |- _ => rewrite H
         | H : first_unsupported _ = _ |- _ => rewrite H
         | H : forall rest, listeners_first (_ ++ rest) = _ |- _ => rewrite H
         | H : listeners_first _ = _ |- _ => rewrite H
         end;
  cbn;
  repeat match goal with
         | |- _ /\ _ => split
         end;
  try reflexivity; try assumption; try (do 2 eexists; reflexivity).

Lemma start_run (names : list EventName) (env : Env) (w : Wechaty)
      (hist : list Obs) :
  StateSwitch.on (state w) = StateSwitch.is_false ->
  lifeTimer w = None ->
  includes (listeners w) "error" = true ->
  puppet_name_returns env w hist = true ->
  exists (w1 : Wechaty) (tr : list Obs) (s : Settled Flow),
    attempt_post names (armed w) s w1 tr /\
    hd_error tr =
      Some (OCall MemoryLoad (env (hist ++ name_lookup env w hist) MemoryLoad)) /\
    run env (start names) w hist =
    match s with
    | Rejected e =>
        mkRun (final (run env stop w1
                          (hist ++ (name_lookup env w hist ++ tr) ++
                           [OEmit OnBot (EvError e)])))
              ((name_lookup env w hist ++ tr) ++
               OEmit OnBot (EvError e) ::
               obs (run env stop w1
                        (hist ++ (name_lookup env w hist ++ tr) ++
                         [OEmit OnBot (EvError e)])) ++
               reported (settled (run env stop w1
                        (hist ++ (name_lookup env w hist ++ tr) ++
                         [OEmit OnBot (EvError e)]))))
              (Resolved tt)
    | _ =>
        mkRun (switched_on w1)
              ((name_lookup env w hist ++ tr) ++ [OEmit OnBot EvStart])
              (Resolved tt)
    end.
Proof.
  intros Hoff Htimer Herr Hname.
  destruct (run_puppet_name env w hist Hname) as [n Hn].
  unfold start. cbn [bind Monad_Prog].
  rewrite run_bind, Hn. cbn [settled final obs].
  cbn [run pbind get MonadState_Prog]. rewrite Hoff. cbn [StateSwitch.truthy].
  cbn [run pbind modify bind Monad_Prog get put MonadState_Prog
       with_readyState lifeTimer].
  rewrite Htimer.
  cbn [run pbind modify bind Monad_Prog get put MonadState_Prog].
  match goal with
  | |- context [run env (pbind (try_catch ?B ?H) ?K) ?w0 ?h0] =>
      change w0 with (armed w); set (body := B); set (handler := H);
      set (rest := K)
  end.
  assert (Hwp : wp anywhere body (armed w) (attempt_post names (armed w))).
  { subst body. unfold initPuppet, initPuppetEventBridge, initPuppetAccessory.
    wp_exec ltac:(apply wp_initPuppetEventBridge_loop).
    all: attempt_leaf. }
  assert (Hh : forall e w1 h1,
             StateSwitch.off (state w1) = StateSwitch.is_false ->
             includes (listeners w1) "error" = true ->
             run env (handler e) w1 h1 =
             mkRun (final (run env stop w1 (h1 ++ [OEmit OnBot (EvError e)])))
                   (OEmit OnBot (EvError e) ::
                    obs (run env stop w1 (h1 ++ [OEmit OnBot (EvError e)])) ++
                    reported (settled (run env stop w1
                                           (h1 ++ [OEmit OnBot (EvError e)]))))
                   (Resolved Return)).
  { intros e w1 h1 Hoff1 Herr1. subst handler. cbn beta. unfold emit_error.
    cbn [run pbind bind Monad_Prog get MonadState_Prog]. rewrite Herr1.
    cbn [run pbind emit observe]. rewrite run_bind, run_try_catch.
    pose proof (@wp_run _ not_on stop env w1 (h1 ++ [OEmit OnBot (EvError e)])
                        _ (@wp_stop w1 Hoff1 Herr1)) as Hstop.
    destruct (run env stop w1 (h1 ++ [OEmit OnBot (EvError e)]))
      as [w2 tr2 s2].
    cbn [settled final obs] in *.
    destruct Hstop as ((_ & _ & _ & _ & _ & Hls2 & _) & Hs2).
    destruct s2 as [[]|e'|]; [| |destruct Hs2].
    - cbn. now rewrite app_nil_r.
    - cbn. rewrite Hls2, Herr1. cbn. now rewrite app_nil_r. }
  rewrite run_bind, run_try_catch.
  pose proof (@wp_run _ anywhere body env (armed w)
                      (hist ++ name_lookup env w hist) _ Hwp) as Hb.
  pose proof (obs_head env body (armed w) (hist ++ name_lookup env w hist))
    as Hhd.
  clear Hwp. clearbody body.
  destruct (run env body (armed w) (hist ++ name_lookup env w hist))
    as [w1 tr s].
  cbn [settled final obs] in *.
  exists w1, tr, s. split; [exact Hb|].
  destruct Hb as ((Hst & Hrs & Hlt & Hls & Hop) & _ & (loaded & tl & ->) & _
                  & _ & Hs).
  split; [cbn in Hhd |- *; now rewrite Hhd|]. clear Hhd.
  set (tr := OCall MemoryLoad loaded :: tl) in *. clearbody tr.
  destruct s as [flow|e|]; [| |destruct Hs].
  - destruct Hs as (-> & _). cbn. now rewrite app_assoc.
  - cbn [settled final obs]. rewrite Hh.
    + cbn. rewrite app_nil_r, <- !app_assoc. reflexivity.
    + now rewrite Hst.
    + now rewrite Hls.
Qed.

Lemma stop_run (env : Env) (w : Wechaty) (hist : list Obs) :
  StateSwitch.off (state w) = StateSwitch.is_false ->
  includes (listeners w) "error" = true ->
  stop_post w (settled (run env stop w hist)) (final (run env stop w hist))
            (obs (run env stop w hist)) /\
  forall e,
    settled (run env stop w hist) = Rejected e ->
    puppet_name_returns env w hist = false /\
    obs (run env stop w hist) = name_lookup env w hist.
Proof.
  intros Hoff Herr.
  pose proof (@wp_run _ not_on stop env w hist _ (@wp_stop w Hoff Herr)) as H.
  split; [exact H|]. intros e He.
  pose proof (obs_head env stop w hist) as Hhd.
  rewrite He in H. destruct H as (_ & Htr & Hn & _).
  rewrite Htr in Hhd |- *. cbn in Hhd.
  unfold puppet_name_returns, name_lookup. rewrite Hn, <- Hhd. auto.
Qed.

Lemma lifecycle_quiet (tr : list Obs) :
  existsb lifecycle_event tr = false ->
  existsb is_start_event tr = false /\
  existsb is_error_event tr = false /\
  existsb is_stop_event tr = false.
Proof.
  induction tr as [|o tr IH]; cbn; auto.
  unfold lifecycle_event at 1.
  intros H. apply orb_false_iff in H as [H1 H2].
  apply orb_false_iff in H1 as [H1 H3]. apply orb_false_iff in H1 as [H1 H4].
  rewrite H1, H3, H4. cbn. auto.
Qed.

Lemma name_lookup_quiet (env : Env) (w : Wechaty) (hist : list Obs) :
  existsb lifecycle_event (name_lookup env w hist) = false /\
  existsb is_puppet_on (name_lookup env w hist) = false /\
  existsb is_puppet_start (name_lookup env w hist) = false /\
  existsb is_io_start (name_lookup env w hist) = false /\
  existsb is_init_call (name_lookup env w hist) = false.
Proof.
  unfold name_lookup. destruct (truthy (opt_puppet (options w))); cbn; auto.
Qed.

Lemma name_lookup_raised (env : Env) (w : Wechaty) (hist : list Obs) :
  puppet_name_returns env w hist = true ->
  raised (name_lookup env w hist) = [].
Proof.
  unfold puppet_name_returns, name_lookup.
  destruct (truthy (opt_puppet (options w))); cbn; [reflexivity|].
  destruct (env hist ConfigSystemPuppetName); cbn; [reflexivity|discriminate].
Qed.

Lemma start_with_lifeTimer (names : list EventName) (env : Env) (w : Wechaty)
      (hist : list Obs) (t : unit) :
  StateSwitch.on (state w) = StateSwitch.is_false ->
  lifeTimer w = Some t ->
  puppet_name_returns env w hist = true ->
  run env (start names) w hist =
  mkRun (with_readyState
           (StateSwitch.set_off StateSwitch.stable (readyState w)) w)
        (name_lookup env w hist)
        (Rejected (MkError "start() lifeTimer exist")).
Proof.
  intros Hoff Htimer Hname.
  destruct (run_puppet_name env w hist Hname) as [n Hn].
  unfold start. cbn [bind Monad_Prog].
  rewrite run_bind, Hn. cbn [settled final obs].
  cbn [run pbind get MonadState_Prog]. rewrite Hoff. cbn [StateSwitch.truthy].
  cbn [run pbind modify bind Monad_Prog get put MonadState_Prog
       with_readyState lifeTimer].
  rewrite Htimer. cbn. now rewrite app_nil_r.
Qed.

(** C1 (as the code has it).  [start()] is called on an instance whose
    state is Off ([state.on()] is false), the puppet name of its log line
    being available.  If the life timer is set, [start()] rejects with
    'start() lifeTimer exist' having emitted nothing.  If it is not set
    and the instance has a listener for ['error'], [start()] resolves.
    What it lets observe begins with an attempt, in which no [start],
    [error] or [stop] is emitted: the lookup of the name, then
    [memory.load()], whose outcome is ignored, then the rest of the start
    sequence.  If neither puppet initialization, puppet start nor io start
    threw in the attempt, [start] is emitted next and last, the state is
    On and the life timer set.  If one of them threw, [error] is emitted
    next with what was thrown, and then [stop()] runs: what follows is
    what [stop()] lets observe; [start] is not emitted. *)
Theorem start_resolves (names : list EventName) (env : Env) (w : Wechaty)
        (hist : list Obs) :
  StateSwitch.on (state w) = StateSwitch.is_false ->
  puppet_name_returns env w hist = true ->
  let r := run env (start names) w hist in
  match lifeTimer w with
  | Some _ =>
      settled r = Rejected (MkError "start() lifeTimer exist") /\
      obs r = name_lookup env w hist /\
      state (final r) = state w
  | None =>
      includes (listeners w) "error" = true ->
      settled r = Resolved tt /\
      exists rest : list Obs,
        let attempt :=
          name_lookup env w hist ++
          OCall MemoryLoad (env (hist ++ name_lookup env w hist) MemoryLoad)
          :: rest in
        existsb lifecycle_event attempt = false /\
        match thrown names w attempt with
        | None => started (final r) attempt (obs r)
        | Some e => gave_up env hist w (final r) attempt (obs r) e
        end
  end.
Proof.
  intros Hoff Hname r.
  destruct (lifeTimer w) as [t|] eqn:Htimer.
  - unfold r. rewrite (@start_with_lifeTimer names env w hist t Hoff Htimer Hname).
    cbn. auto.
  - intros Herr.
    destruct (@start_run names env w hist Hoff Htimer Herr Hname)
      as (w1 & tr & s & Hpost & Hhd & Hrun).
    fold r in Hrun.
    destruct Hpost as ((Hst & Hrs & Hlt & Hls & Hop) & _ & _ & Hquiet & _ & Hs).
    destruct tr as [|o rest]; [discriminate Hhd|].
    cbn in Hhd. injection Hhd as ->.
    set (attempt := name_lookup env w hist ++ _ :: rest) in *.
    assert (Hthrown : thrown names w attempt =
                      thrown names (armed w) (OCall MemoryLoad
                        (env (hist ++ name_lookup env w hist) MemoryLoad) :: rest)).
    { unfold thrown, attempt. rewrite raised_app, name_lookup_raised by assumption.
      reflexivity. }
    assert (Hq : existsb lifecycle_event attempt = false).
    { unfold attempt. rewrite existsb_app, Hquiet.
      now rewrite (proj1 (name_lookup_quiet env w hist)). }
    split; [destruct s; now rewrite Hrun|].
    exists rest. fold attempt. split; [exact Hq|].
    rewrite Hthrown.
    destruct s as [flow|e|]; [| |destruct Hs].
    + destruct Hs as (_ & -> & _). rewrite Hrun. cbn. repeat split.
    + rewrite Hs, Hrun. cbn [final obs].
      assert (Hoff1 : StateSwitch.off (state w1) = StateSwitch.is_false)
        by now rewrite Hst.
      assert (Herr1 : includes (listeners w1) "error" = true)
        by now rewrite Hls.
      destruct (@stop_run env w1 (hist ++ attempt ++ [OEmit OnBot (EvError e)])
                          Hoff1 Herr1) as [Hstop Hrej].
      exists w1. cbn zeta.
      set (rs := run env stop w1 _) in *.
      destruct Hstop as ((Hnostart & _) & Hcases).
      split; [reflexivity|]. split; [reflexivity|].
      split; [now rewrite Hst|]. split; [now rewrite Hlt|].
      split; [now rewrite Hls|]. split; [now rewrite Hop|].
      split.
      { rewrite existsb_app. cbn. rewrite existsb_app, Hnostart.
        rewrite (proj1 (lifecycle_quiet _ Hq)). now destruct (settled rs). }
      destruct (settled rs) as [u|e'|] eqn:Es; [| |destruct Hcases].
      * destruct Hcases as (Hstopped & Hoff2 & _ & Hlt2 & _).
        split; [|auto]. unfold not_on.
        destruct (state (final rs)) as [[] []]; cbn in *; congruence.
      * destruct Hcases as (_ & _ & Hw).
        destruct (Hrej e' eq_refl) as [_ Hobs].
        split; [|auto]. unfold not_on. rewrite Hw, Hst. cbn. discriminate.
Qed.

Lemma start_resolves_witness :
  let r := run puppet_start_failing_env (start puppet_event_names)
               listening_bot [] in
  settled r = Resolved tt /\
  exists rest : list Obs,
    let attempt :=
      name_lookup puppet_start_failing_env listening_bot [] ++
      OCall MemoryLoad
            (puppet_start_failing_env
               ([] ++ name_lookup puppet_start_failing_env listening_bot [])
               MemoryLoad)
      :: rest in
    existsb lifecycle_event attempt = false /\
    match thrown puppet_event_names listening_bot attempt with
    | None => started (final r) attempt (obs r)
    | Some e =>
        gave_up puppet_start_failing_env [] listening_bot (final r) attempt
                (obs r) e
    end.
Proof.
  exact (@start_resolves puppet_event_names puppet_start_failing_env
                         listening_bot [] eq_refl eq_refl eq_refl).
Defined.

(** C1 (as stated) fails.  After [start()], then [stop()] while
    [puppet.start()] is awaited, the state is Off and the life timer is
    set; [start()] then rejects with 'start() lifeTimer exist', emitting
    nothing.  A rejected [memory.load()] is not turned into [stop()] and
    an [error] event: [start] goes through.  On a bot without a listener
    for ['error'], a rejected [puppet.start()] makes [start()] reject with
    that error, the state left pending.  And when
    [config.systemPuppetName()] throws, [start()] rejects with that error
    before anything else. *)
Lemma start_rejects_with_lifeTimer :
  let w := bot stopped_while_starting in
  let r := run obliging_env (start puppet_event_names) w
               (hist stopped_while_starting) in
  let r' := run memory_failing_env (start puppet_event_names) fresh_bot [] in
  let r'' := run puppet_start_failing_env (start puppet_event_names)
                 fresh_bot [] in
  let r''' := run nameless_env (start puppet_event_names) listening_bot [] in
  (StateSwitch.on (state w) = StateSwitch.is_false /\
   lifeTimer w = Some tt /\
   settled r = Rejected (MkError "start() lifeTimer exist") /\
   existsb is_emission (obs r) = false) /\
  (In (OCall MemoryLoad (Throws (MkError "rejected"))) (obs r') /\
   existsb is_error_event (obs r') = false /\
   existsb is_stop_event (obs r') = false /\
   existsb is_start_event (obs r') = true) /\
  (StateSwitch.on (state fresh_bot) = StateSwitch.is_false /\
   lifeTimer fresh_bot = None /\
   settled r'' = Rejected (MkError "rejected") /\
   StateSwitch.on (state (final r'')) = StateSwitch.is_pending) /\
  (settled r''' = Rejected (MkError "no puppet name") /\
   existsb is_emission (obs r''') = false).
Proof.
  vm_compute. repeat split; auto.
Qed.

(** ** Re-entrant [start] *)

Lemma off_not_on (w : Wechaty) :
  StateSwitch.truthy (StateSwitch.off (state w)) = true -> not_on w.
Proof.
  unfold not_on. destruct (state w) as [[] []]; cbn; congruence.
Qed.















(** * More properties *)

(** ** Posting a moment, assembling a timeline *)

(** X1.  A post holding an item that is not a text, an image, a video or
    a url link is rejected with the conversion error before anything is
    called: the backend is not reached and the instance is unchanged. *)
Theorem post_unconvertible_rejected (env : Env) (w : Wechaty)
        (hist : list Obs) (p : PostInterface) :
  forallb convertible (sayableList (payload p)) = false ->
  run env (post p) w hist = mkRun w [] (Rejected convert_error).
Proof.
  intros H. unfold post, generateMomentPayload.
  rewrite bucket_spec, H. reflexivity.
Qed.

Lemma post_unconvertible_rejected_witness :
  run obliging_env
      (post {| payload := {| sayableList := [SayText "hi"; SayMiniProgram "app"] |} |})
      (with_puppet (Some "puppet") fresh_bot) [] =
  mkRun (with_puppet (Some "puppet") fresh_bot) [] (Rejected convert_error).
Proof.
  apply (@post_unconvertible_rejected obliging_env
           (with_puppet (Some "puppet") fresh_bot) []
           {| payload := {| sayableList := [SayText "hi"; SayMiniProgram "app"] |} |}).
  reflexivity.
Defined.

(** X2.  Once the conversion gave a moment payload, [post] hands it to
    [puppet.momentPost], the only call it makes, and leaves the instance
    alone.  A rejection of that call is the rejection of [post]; without
    an id ([undefined] or ['']) [post] resolves to nothing; with an id it
    rejects with the [TypeError] of [instanceToClass(this, PostImpl).load],
    before any [ready()]: [post] never resolves to a post. *)
Theorem post_outcome (env : Env) (w : Wechaty) (hist : list Obs)
        (p : PostInterface) (m : MomentPayload) (pp : Puppet) :
  generateMomentPayload p = inr m ->
  puppet w = Some pp ->
  let posted := env hist (MomentPost pp m) in
  let r := run env (post p) w hist in
  final r = w /\
  obs r = [OCall (MomentPost pp m) posted] /\
  settled r = match posted with
              | Throws e => Rejected e
              | Returns momentId =>
                  if truthy momentId then Rejected load_error
                  else Resolved None
              end.
Proof.
  intros Hm Hp. unfold post, instanceToClass_load. rewrite Hm. cbn.
  rewrite Hp. cbn.
  destruct (env hist (MomentPost pp m)) as [momentId|e]; cbn; auto.
  destruct (truthy momentId); cbn; auto.
Qed.

Lemma post_outcome_witness :
  let w := with_puppet (Some "puppet") fresh_bot in
  let p := {| payload := {| sayableList := [SayText "hi"; SayImage "qr"] |} |} in
  let m := {| textMaterial := Some "hi"; imageMaterialList := ["qr"];
              videoMaterial := None; urlMaterial := None |} in
  let r := run obliging_env (post p) w [] in
  final r = w /\
  obs r = [OCall (MomentPost "puppet" m) (Returns (Some "post"))] /\
  settled r = Rejected load_error.
Proof.
  apply (@post_outcome obliging_env (with_puppet (Some "puppet") fresh_bot) []
           {| payload := {| sayableList := [SayText "hi"; SayImage "qr"] |} |}
           {| textMaterial := Some "hi"; imageMaterialList := ["qr"];
              videoMaterial := None; urlMaterial := None |} "puppet");
    reflexivity.
Defined.

Lemma wp_timeline_loop (response : list string) :
  forall (momentList : list string) (w : Wechaty) (Q : Post (list string)),
    (forall tr,
        map call_of tr = map (fun i => Some (PostReady i)) response ->
        Q (Resolved (momentList ++ fulfilled_posts tr)) w tr) ->
    wp anywhere (timeline_loop response momentList) w Q.
Proof.
  induction response as [|momentId rest IH]; intros momentList w Q HQ.
  - cbn. specialize (HQ [] eq_refl). cbn in HQ. now rewrite app_nil_r in HQ.
  - cbn. split; [exact (fun _ => I)|]. intros [[]|e]; cbn; unfold after.
    + apply IH. intros tr Htr.
      specialize (HQ (OCall (PostReady momentId) (Returns tt) :: tr)).
      cbn in HQ. rewrite <- app_assoc. apply HQ. now rewrite Htr.
    + apply IH. intros tr Htr.
      specialize (HQ (OCall (PostReady momentId) (Throws e) :: tr)).
      cbn in HQ. apply HQ. now rewrite Htr.
Qed.

(** X3.  The loop of [timeline] never rejects: it awaits the [ready()] of
    every moment of the page, in the order of the page, and gives back
    the moments whose [ready()] was fulfilled, in that order, skipping
    the others; the page token is passed on unchanged. *)
Theorem timeline_skips_unhydrated (env : Env) (w : Wechaty) (hist : list Obs)
        (response : list string) (nextPageToken : option string) :
  let r := run env (timeline_assemble response nextPageToken) w hist in
  settled r = Resolved (fulfilled_posts (obs r), nextPageToken) /\
  map call_of (obs r) = map (fun i => Some (PostReady i)) response /\
  final r = w.
Proof.
  apply (@wp_run _ anywhere (timeline_assemble response nextPageToken) env w
                 hist
                 (fun s w' tr =>
                    s = Resolved (fulfilled_posts tr, nextPageToken) /\
                    map call_of tr =
                      map (fun i => Some (PostReady i)) response /\
                    w' = w)).
  unfold timeline_assemble. apply wp_bind, wp_timeline_loop.
  intros tr Htr. cbn. rewrite app_nil_r. auto.
Qed.

(** ** Plugins and options *)

(** X4.  Plugins given to the static [use] are installed by the
    constructor after the ones registered before, in the order given, as
    the instance method [use] would install them on the object built
    without them; objects that exist already are not touched, and the
    global instance stays the one it was. *)
Theorem global_plugins_in_order (plugins : list PluginArg) (s : Statics)
        (cuid : string) (options : option WechatyOptions) :
  constructor (globalPluginList (static_use plugins s)) cuid options =
    match constructor (globalPluginList s) cuid options with
    | (w, Some e) => (w, Some e)
    | (w, None) => use plugins w
    end /\
  heap (static_use plugins s) = heap s /\
  match globalInstance s with
  | Some ref =>
      instance cuid None (static_use plugins s) = (static_use plugins s, inr ref)
  | None => True
  end.
Proof.
  split; [|split].
  - unfold constructor, installGlobalPlugin, static_use, use.
    cbn [globalPluginList]. apply forEach_plugin_app.
  - reflexivity.
  - destruct (globalInstance s) as [ref|] eqn:E; [|exact I].
    unfold instance. cbn [static_use globalInstance]. now rewrite E.
Qed.

(** X5.  The name of a bot built without global plugins is the option
    [name] when it is a non-empty string, else the deprecated option
    [profile] when that is one, else ['wechaty']. *)
Theorem name_of_new_bot (cuid : string) (options : option WechatyOptions) :
  name (fst (constructor [] cuid options)) =
  match options with
  | None => "wechaty"
  | Some o =>
      match opt_name o, opt_profile o with
      | Some (String a n), _ => String a n
      | _, Some (String a p) => String a p
      | _, _ => "wechaty"
      end
  end.
Proof.
  destruct options as [[m n p pu po io]|]; [|reflexivity].
  destruct n as [[|a n]|], p as [[|b p]|]; reflexivity.
Qed.

(** ** [reset] *)

(** X6.  [reset] goes round the state machine: it leaves the instance as
    it is and emits nothing; it calls [puppet.stop()] and, only when that
    is fulfilled, [puppet.start()]; it rejects when one of the two does,
    or when no puppet is set. *)
Theorem reset_bypasses_lifecycle (env : Env) (w : Wechaty) (hist : list Obs)
        (reason : option string) :
  let r := run env (reset reason) w hist in
  final r = w /\
  match puppet w with
  | None => obs r = [] /\ settled r = Rejected undefined_puppet
  | Some p =>
      let stopped := env hist (PuppetStop p) in
      match stopped with
      | Throws e =>
          obs r = [OCall (PuppetStop p) stopped] /\ settled r = Rejected e
      | Returns _ =>
          let started :=
            env (hist ++ [OCall (PuppetStop p) stopped]) (PuppetStart p) in
          obs r = [OCall (PuppetStop p) stopped; OCall (PuppetStart p) started] /\
          settled r = match started with
                      | Returns _ => Resolved tt
                      | Throws e => Rejected e
                      end
      end
  end.
Proof.
  unfold reset. cbn.
  destruct (puppet w) as [p|] eqn:E; cbn; auto.
  destruct (env hist (PuppetStop p)) as [[]|e]; cbn; auto.
  rewrite E. cbn.
  destruct (env _ (PuppetStart p)) as [[]|e]; cbn; auto.
Qed.

(** ** More of the puppet event bridge *)

Lemma hydrated_first_quiet (tr : list Obs) :
  existsb is_emission tr = false -> hydrated_first tr = true.
Proof.
  induction tr as [|o tr IH]; cbn; [reflexivity|].
  destruct (is_emission o); cbn; [discriminate | exact IH].
Qed.

Lemma hydrated_first_app (l1 l2 : list Obs) :
  existsb is_emission l1 = false ->
  hydrated_first (l1 ++ l2) = hydrated_first l2.
Proof.
  induction l1 as [|o l1 IH]; cbn; [reflexivity|].
  destruct (is_emission o); cbn; [discriminate | exact IH].
Qed.

Lemma wp_bridge_in_order (ev : PuppetEvent) (w : Wechaty) :
  wp anywhere (bridge ev) w in_hydrated_order.
Proof.
  destruct ev; unfold bridge; wp_exec ltac:(apply wp_promise_all_ready).
  all: unfold in_hydrated_order.
  all: try reflexivity.
  all: cbn [hydrated_first is_emission negb orb andb].
  all: try (rewrite hydrated_first_app;
            [reflexivity | apply contact_ready_quiet]).
  all: match goal with
       | H : forallb is_contact_ready _ = true |- _ =>
           apply hydrated_first_quiet, (is_contact_ready_quiet _ H)
       end.
Qed.

(** X7.  Whatever event the puppet emits and whatever the calls answer,
    the listener of the bridge makes no hydration call once it has
    emitted an event: every [ready()] and [sync()] comes before the first
    emission. *)
Theorem bridge_hydrates_before_emitting (ev : PuppetEvent) (env : Env)
        (w : Wechaty) (hist : list Obs) :
  hydrated_first (obs (run env (bridge ev) w hist)) = true.
Proof.
  exact (@wp_run _ anywhere (bridge ev) env w hist in_hydrated_order
                 (wp_bridge_in_order ev w)).
Qed.

Lemma wp_bridge_leaves (ev : PuppetEvent) (w : Wechaty) :
  wp anywhere (bridge ev) w (bridge_leaves ev w).
Proof.
  destruct ev; unfold bridge; wp_exec ltac:(apply wp_promise_all_ready).
  all: reflexivity.
Qed.

(** X8.  A listener of the bridge never touches the instance, however it
    ends: lifecycle state, life timer, puppet, io, memory and listeners
    are as before; the one exception is the listener of [ready], which
    switches [readyState] on. *)
Theorem bridge_keeps_instance (ev : PuppetEvent) (env : Env) (w : Wechaty)
        (hist : list Obs) :
  final (run env (bridge ev) w hist) = after_bridge ev w.
Proof.
  exact (@wp_run _ anywhere (bridge ev) env w hist (bridge_leaves ev w)
                 (wp_bridge_leaves ev w)).
Qed.

Lemma wp_room_join (w : Wechaty) (roomId : string)
      (inviteeIdList : list string) (inviterId : string) (timestamp : Z) :
  wp anywhere (bridge (PRoomJoin roomId inviteeIdList inviterId timestamp)) w
     (joined roomId inviteeIdList inviterId timestamp).
Proof.
  unfold bridge. wp_exec ltac:(apply wp_promise_all_ready).
  all: unfold joined; cbn [existsb failed_hydration is_hydration orb].
  all: rewrite ?existsb_app, ?(proj1 (contact_ready_quiet _)).
  all: cbn [existsb failed_hydration is_hydration orb].
  all: try match goal with
           | H : existsb failed_hydration ?tr = true |- _ => rewrite H
           end.
  all: try discriminate.
  intros _. cbn [ret_type] in *.
  repeat match goal with u : unit |- _ => destruct u end.
  split; reflexivity.
Qed.

(** X9.  When the room's [sync()] and the [ready()] of every invitee and
    of the inviter are fulfilled, the listener of [room-join] resolves
    having emitted the bot-level [room-join] and then the room's [join],
    both with the invitees in the order of the payload, the inviter and
    the date of the timestamp, after all the hydrations. *)
Theorem room_join_events (env : Env) (w : Wechaty) (hist : list Obs)
        (roomId : string) (inviteeIdList : list string) (inviterId : string)
        (timestamp : Z) :
  let r := run env (bridge (PRoomJoin roomId inviteeIdList inviterId
                                      timestamp)) w hist in
  existsb failed_hydration (obs r) = false ->
  settled r = Resolved tt /\
  obs r = OCall (RoomSync roomId) (Returns tt)
          :: map contact_ready inviteeIdList
          ++ [contact_ready inviterId;
              OEmit OnBot (EvRoomJoin roomId inviteeIdList inviterId
                                      (timestampToDate timestamp));
              OEmit (OnRoom roomId) (EvJoin inviteeIdList inviterId
                                            (timestampToDate timestamp))].
Proof.
  exact (@wp_run _ anywhere _ env w hist
                 (joined roomId inviteeIdList inviterId timestamp)
                 (wp_room_join w roomId inviteeIdList inviterId timestamp)).
Qed.

Lemma room_join_events_witness :
  let r := run obliging_env (bridge (PRoomJoin "room" ["a"; "b"] "host" 7))
               fresh_bot [] in
  settled r = Resolved tt /\
  obs r = OCall (RoomSync "room") (Returns tt)
          :: map contact_ready ["a"; "b"]
          ++ [contact_ready "host";
              OEmit OnBot (EvRoomJoin "room" ["a"; "b"] "host"
                                      (timestampToDate 7));
              OEmit (OnRoom "room") (EvJoin ["a"; "b"] "host"
                                            (timestampToDate 7))].
Proof.
  apply (@room_join_events obliging_env fresh_bot [] "room" ["a"; "b"]
                           "host" 7%Z).
  reflexivity.
Defined.

(** X10.  After the listener of the puppet's [ready] event ran, which
    emits the bot-level [ready], [ready()] resolves at once, without any
    call, whatever [readyState] was before. *)
Theorem ready_after_ready_event (env : Env) (w : Wechaty)
        (hist hist' : list Obs) :
  let r := run env (bridge PReady) w hist in
  obs r = [OEmit OnBot EvReady] /\
  run env ready (final r) hist' = mkRun (final r) [] (Resolved tt).
Proof.
  split; reflexivity.
Qed.

(** X20.  What the listener of [friendship] lets observe:
    [friendship.ready()] first; when it is rejected, nothing else; when
    it is fulfilled, the bot-level [friendship] event, then the call
    [friendship.contact()] and, unless that throws, the [friendship]
    event on the contact it returned. *)
Theorem bridge_friendship_order (env : Env) (w : Wechaty) (hist : list Obs)
        (friendshipId : string) :
  let hydrated := env hist (FriendshipReady friendshipId) in
  let contact :=
    env (hist ++ [OCall (FriendshipReady friendshipId) hydrated;
                  OEmit OnBot (EvFriendship friendshipId)])
        (FriendshipContact friendshipId) in
  obs (run env (bridge (PFriendship friendshipId)) w hist) =
  OCall (FriendshipReady friendshipId) hydrated ::
  match hydrated with
  | Throws _ => []
  | Returns _ =>
      OEmit OnBot (EvFriendship friendshipId) ::
      OCall (FriendshipContact friendshipId) contact ::
      match contact with
      | Returns contactId =>
          [OEmit (OnContact contactId) (EvFriendship friendshipId)]
      | Throws _ => []
      end
  end.
Proof.
  cbn.
  destruct (env hist (FriendshipReady friendshipId)) as [[]|e]; cbn;
    [|reflexivity].
  rewrite <- app_assoc; cbn.
  destruct (env _ (FriendshipContact friendshipId)) as [contactId|e];
    reflexivity.
Qed.

(** ** Registering the listeners of the bridge *)

Lemma run_initPuppetEventBridge_loop (env : Env) (p : Puppet) (w : Wechaty)
      (names : list EventName) :
  (forall h n, env h (PuppetOn p n) = Returns tt) ->
  forall hist,
    run env (initPuppetEventBridge_loop p names) w hist =
    mkRun w
          (map (fun n => OCall (PuppetOn p n) (Returns tt))
               (filter bridged (take_while supported names)))
          (match find (fun n => negb (supported n)) names with
           | None => Resolved tt
           | Some n => Rejected (unsupported_error n)
           end).
Proof.
  intros Henv. induction names as [|n rest IH]; intros hist; [reflexivity|].
  cbn [initPuppetEventBridge_loop take_while find filter].
  destruct (bridged n) eqn:Eb.
  - assert (Hs : supported n = true) by (unfold supported; now rewrite Eb).
    rewrite Hs. cbn [negb filter]. rewrite Eb.
    cbn -[supported bridged take_while find filter].
    rewrite Henv. cbn -[supported bridged take_while find filter].
    now rewrite IH.
  - destruct (String.eqb n "reset") eqn:Er.
    + assert (Hs : supported n = true)
        by (unfold supported; now rewrite Eb, Er).
      rewrite Hs. cbn [negb filter]. rewrite Eb.
      cbn -[supported bridged take_while find filter]. apply IH.
    + assert (Hs : supported n = false)
        by (unfold supported; now rewrite Eb, Er).
      rewrite Hs. reflexivity.
Qed.

(** X11.  With a puppet whose [on] does not throw,
    [initPuppetEventBridge] registers one listener for each event name of
    the dictionary that has a case in the [switch], in the order of the
    dictionary, skipping [reset]; it stops at the first name that has no
    case and throws 'eventName ... unsupported!' for it, the listeners
    before it staying registered; the instance is not changed. *)
Theorem initPuppetEventBridge_registers (env : Env) (p : Puppet) (w : Wechaty)
        (names : list EventName) (hist : list Obs) :
  (forall h n, env h (PuppetOn p n) = Returns tt) ->
  run env (initPuppetEventBridge names p) w hist =
  mkRun w
        (map (fun n => OCall (PuppetOn p n) (Returns tt))
             (filter bridged (take_while supported names)))
        (match find (fun n => negb (supported n)) names with
         | None => Resolved tt
         | Some n => Rejected (unsupported_error n)
         end).
Proof.
  intros Henv. unfold initPuppetEventBridge.
  now apply run_initPuppetEventBridge_loop.
Qed.

Lemma initPuppetEventBridge_registers_witness :
  run obliging_env (initPuppetEventBridge ["message"; "reset"; "typing"; "scan"]
                                          "puppet") fresh_bot [] =
  mkRun fresh_bot
        [OCall (PuppetOn "puppet" "message") (Returns tt)]
        (Rejected (unsupported_error "typing")).
Proof.
  apply (@initPuppetEventBridge_registers obliging_env "puppet" fresh_bot
           ["message"; "reset"; "typing"; "scan"] []).
  reflexivity.
Defined.

(** ** [stop] *)

Lemma puppet_name_returns_options (env : Env) (w w' : Wechaty)
      (hist : list Obs) :
  options w' = options w ->
  puppet_name_returns env w' hist = puppet_name_returns env w hist.
Proof. intros H. unfold puppet_name_returns. now rewrite H. Qed.

Lemma name_lookup_options (env : Env) (w w' : Wechaty) (hist : list Obs) :
  options w' = options w ->
  name_lookup env w' hist = name_lookup env w hist.
Proof. intros H. unfold name_lookup. now rewrite H. Qed.

(** X12.  On an instance that is not stopped and has a listener for
    ['error'], the puppet name of the log line being available, [stop()]
    always resolves: it clears the life timer, switches [readyState] off,
    emits [stop] and leaves the state Off, with the puppet and the
    listeners as they were.  A rejected [puppet.stop()] (or a missing
    puppet) is passed over in silence; a rejected [io.stop()] gives an
    [error] event, the only one there can be, and leaves the io client
    attached, which is detached otherwise. *)
Theorem stop_resolves (env : Env) (w : Wechaty) (hist : list Obs) :
  StateSwitch.off (state w) = StateSwitch.is_false ->
  includes (listeners w) "error" = true ->
  puppet_name_returns env w hist = true ->
  let r := run env stop w hist in
  settled r = Resolved tt /\
  existsb is_stop_event (obs r) = true /\
  StateSwitch.off (state (final r)) = StateSwitch.is_true /\
  StateSwitch.off (readyState (final r)) = StateSwitch.is_true /\
  lifeTimer (final r) = None /\
  listeners (final r) = listeners w /\
  puppet (final r) = puppet w /\
  existsb is_error_event (obs r) = existsb is_io_stop_failure (obs r) /\
  io (final r) = (if existsb is_io_stop_failure (obs r) then io w else None).
Proof.
  intros Hoff Herr Hname r.
  destruct (@stop_run env w hist Hoff Herr) as [Hpost Hrej]. fold r in Hpost, Hrej.
  destruct Hpost as ((_ & _ & _ & _ & _ & Hls & Hp & _) & Hcases).
  destruct (settled r) as [[]|e|]; [| |destruct Hcases].
  - destruct Hcases as (H1 & H2 & H3 & H4 & H5 & H6). auto 10.
  - destruct (Hrej e eq_refl) as [Hn _]. congruence.
Qed.

Lemma stop_resolves_witness :
  let r := run name_only_env stop running_bot [] in
  settled r = Resolved tt /\
  existsb is_stop_event (obs r) = true /\
  StateSwitch.off (state (final r)) = StateSwitch.is_true /\
  StateSwitch.off (readyState (final r)) = StateSwitch.is_true /\
  lifeTimer (final r) = None /\
  listeners (final r) = listeners running_bot /\
  puppet (final r) = puppet running_bot /\
  existsb is_error_event (obs r) = existsb is_io_stop_failure (obs r) /\
  io (final r) = (if existsb is_io_stop_failure (obs r)
                  then io running_bot else None).
Proof.
  apply (@stop_resolves name_only_env running_bot []); reflexivity.
Defined.

Lemma stop_when_off (env : Env) (w : Wechaty) (hist : list Obs) :
  StateSwitch.off (state w) = StateSwitch.is_true ->
  puppet_name_returns env w hist = true ->
  run env stop w hist = mkRun w (name_lookup env w hist) (Resolved tt).
Proof.
  intros H Hname.
  destruct (run_puppet_name env w hist Hname) as [n Hn].
  unfold stop. cbn [bind Monad_Prog]. rewrite run_bind, Hn.
  cbn. rewrite H. cbn. unfold StateSwitch.ready. rewrite H.
  destruct (StateSwitch.on (state w)); cbn; now rewrite app_nil_r.
Qed.

(** X13.  [stop()] is idempotent: after a [stop()] as above, a second
    [stop()] resolves at once; it calls nothing but
    [config.systemPuppetName()] for its log line (and that only when the
    option [puppet] is not set), emits nothing and leaves the instance as
    the first one left it. *)
Theorem stop_twice (env : Env) (w : Wechaty) (hist hist' : list Obs) :
  StateSwitch.off (state w) = StateSwitch.is_false ->
  includes (listeners w) "error" = true ->
  puppet_name_returns env w hist = true ->
  puppet_name_returns env w hist' = true ->
  let r := run env stop w hist in
  run env stop (final r) hist' =
  mkRun (final r) (name_lookup env w hist') (Resolved tt).
Proof.
  intros Hoff Herr Hname Hname' r.
  destruct (@stop_run env w hist Hoff Herr) as [Hpost Hrej]. fold r in Hpost, Hrej.
  destruct Hpost as ((_ & _ & _ & _ & _ & _ & _ & Hop & _) & Hcases).
  rewrite <- (@name_lookup_options env w (final r) hist' Hop).
  apply stop_when_off;
    [|now rewrite (@puppet_name_returns_options env w (final r) hist' Hop)].
  destruct (settled r) as [[]|e|]; [| |destruct Hcases].
  - now destruct Hcases as (_ & H2 & _).
  - destruct (Hrej e eq_refl) as [Hn _]. congruence.
Qed.

Lemma stop_twice_witness :
  let r := run obliging_env stop running_bot [] in
  run obliging_env stop (final r) (obs r) =
  mkRun (final r) (name_lookup obliging_env running_bot (obs r)) (Resolved tt).
Proof.
  apply (@stop_twice obliging_env running_bot [] _); reflexivity.
Defined.

Lemma start_nameless (names : list EventName) (env : Env) (w : Wechaty)
      (hist : list Obs) (e : Error) :
  truthy (opt_puppet (options w)) = false ->
  env hist ConfigSystemPuppetName = Throws e ->
  run env (start names) w hist =
  mkRun w [OCall ConfigSystemPuppetName (Throws e)] (Rejected e).
Proof.
  intros Hn He. unfold start, puppet_name. cbn.
  rewrite Hn. cbn. rewrite He. reflexivity.
Qed.

Lemma stop_nameless (env : Env) (w : Wechaty) (hist : list Obs) (e : Error) :
  truthy (opt_puppet (options w)) = false ->
  env hist ConfigSystemPuppetName = Throws e ->
  run env stop w hist =
  mkRun w [OCall ConfigSystemPuppetName (Throws e)] (Rejected e).
Proof.
  intros Hn He. unfold stop, puppet_name. cbn.
  rewrite Hn. cbn. rewrite He. reflexivity.
Qed.

(** X21.  When the option [puppet] is not set and
    [config.systemPuppetName()] throws, [start()] and [stop()] reject
    with what it threw before they look at the state: that call is all
    they let observe, and the instance is left as it was, whatever its
    lifecycle state. *)
Theorem nameless_start_stop_reject (names : list EventName) (env : Env)
        (w : Wechaty) (hist : list Obs) (e : Error) :
  truthy (opt_puppet (options w)) = false ->
  env hist ConfigSystemPuppetName = Throws e ->
  run env (start names) w hist =
    mkRun w [OCall ConfigSystemPuppetName (Throws e)] (Rejected e) /\
  run env stop w hist =
    mkRun w [OCall ConfigSystemPuppetName (Throws e)] (Rejected e).
Proof.
  intros Hn He. split; [now apply start_nameless | now apply stop_nameless].
Qed.

Lemma nameless_start_stop_reject_witness :
  run nameless_env (start puppet_event_names) running_bot [] =
    mkRun running_bot
          [OCall ConfigSystemPuppetName (Throws (MkError "no puppet name"))]
          (Rejected (MkError "no puppet name")) /\
  run nameless_env stop running_bot [] =
    mkRun running_bot
          [OCall ConfigSystemPuppetName (Throws (MkError "no puppet name"))]
          (Rejected (MkError "no puppet name")).
Proof.
  apply (@nameless_start_stop_reject puppet_event_names nameless_env
           running_bot [] (MkError "no puppet name")); reflexivity.
Defined.

(** ** More of [start] *)

Lemma reported_quiet (s : Settled unit) :
  existsb is_start_event (reported s) = false /\
  existsb is_puppet_on (reported s) = false /\
  existsb is_puppet_start (reported s) = false /\
  existsb is_io_start (reported s) = false /\
  existsb is_init_call (reported s) = false.
Proof. destruct s; cbn; auto. Qed.

Lemma name_lookup_listeners_first (env : Env) (w : Wechaty)
      (hist tr : list Obs) :
  listeners_first (name_lookup env w hist ++ tr) = listeners_first tr.
Proof.
  unfold name_lookup. now destruct (truthy (opt_puppet (options w))).
Qed.

Lemma includes_heartbeat (l : list EventName) :
  includes (l ++ ["heartbeat"]) "error" = includes l "error".
Proof.
  unfold includes. rewrite existsb_app. cbn. now rewrite !orb_false_r.
Qed.

Lemma on_when_off (s : StateSwitch.t) :
  StateSwitch.off s = StateSwitch.is_true ->
  StateSwitch.on s = StateSwitch.is_false.
Proof. destruct s as [[] []]; cbn; congruence. Qed.

(** What [start] keeps and does on an instance that is not started,
    however it ends. *)
Lemma start_frame (names : list EventName) (env : Env) (w : Wechaty)
      (hist : list Obs) :
  StateSwitch.on (state w) = StateSwitch.is_false ->
  lifeTimer w = None ->
  includes (listeners w) "error" = true ->
  let r := run env (start names) w hist in
  listeners (final r) =
    (if existsb is_start_event (obs r) then listeners w ++ ["heartbeat"]
     else listeners w) /\
  listeners_first (obs r) = true /\
  (forall p, puppet w = Some p ->
             existsb is_init_call (obs r) = false /\
             puppet (final r) = Some p) /\
  (existsb is_start_event (obs r) = true ->
   existsb is_puppet_start (obs r) = true /\
   existsb is_io_start (obs r) = truthy (opt_ioToken (options w))) /\
  options (final r) = options w /\
  (puppet_name_returns env w hist = true ->
   settled r = Resolved tt /\
   StateSwitch.on (readyState (final r)) = StateSwitch.is_false /\
   (StateSwitch.on (state (final r)) = StateSwitch.is_true \/
    lifeTimer (final r) = None /\
    (StateSwitch.off (state (final r)) = StateSwitch.is_true \/
     StateSwitch.on (state (final r)) = StateSwitch.is_pending))).
Proof.
  intros Hoff Htimer Herr r.
  destruct (puppet_name_returns env w hist) eqn:Hname.
  - destruct (@start_run names env w hist Hoff Htimer Herr Hname)
      as (w1 & tr & s & Hpost & _ & Hrun).
    fold r in Hrun.
    destruct Hpost as ((Hst & Hrs & Hlt & Hls & Hop) & Hpup & _ & Hquiet
                       & Hfirst & Hs).
    destruct (lifecycle_quiet _ Hquiet) as (Hns & _ & _).
    destruct (name_lookup_quiet env w hist) as (Hq1 & Hq2 & Hq3 & Hq4 & Hq5).
    destruct (lifecycle_quiet _ Hq1) as (Hq0 & _ & _).
    destruct s as [flow|e|]; [| |destruct Hs].
    + destruct Hs as (_ & _ & Hps & Hio). rewrite Hrun. cbn [final obs settled].
      rewrite !existsb_app, Hns, Hq0, Hq3, Hq4, Hps, Hio. cbn.
      rewrite Hls, Hop.
      split; [reflexivity|].
      split; [rewrite listeners_first_app by reflexivity;
              now rewrite name_lookup_listeners_first|].
      split; [intros p Hp; cbn in Hpup; rewrite Hp in Hpup;
              destruct Hpup as [Hp1 Hi];
              rewrite ?existsb_app, Hq5, Hi; cbn; auto|].
      split; [intros _; split; [reflexivity|now rewrite orb_false_r]|].
      split; [reflexivity|]. intros _.
      split; [reflexivity|]. split; [now rewrite Hrs|now left].
    + assert (Hoff1 : StateSwitch.off (state w1) = StateSwitch.is_false)
        by now rewrite Hst.
      assert (Herr1 : includes (listeners w1) "error" = true)
        by now rewrite Hls.
      rewrite Hrun. cbn [final obs settled].
      match goal with
      | |- context [run env stop w1 ?h] =>
          destruct (@stop_run env w1 h Hoff1 Herr1) as [Hstop Hrej];
          set (rs := run env stop w1 h) in *
      end.
      destruct Hstop as ((Hs1 & Hs2 & Hs3 & Hs4 & Hs5 & Hs6 & Hs7 & Hs8 & Hs9)
                         & Hcases).
      destruct (reported_quiet (settled rs)) as (Hr1 & Hr2 & Hr3 & Hr4 & Hr5).
      assert (Hnostart :
                existsb is_start_event
                  ((name_lookup env w hist ++ tr) ++
                   OEmit OnBot (EvError e) :: obs rs ++ reported (settled rs))
                = false).
      { rewrite !existsb_app. cbn. now rewrite existsb_app, Hq0, Hns, Hs1, Hr1. }
      rewrite Hnostart.
      split; [now rewrite Hs6, Hls|].
      split.
      { rewrite listeners_first_app;
          [now rewrite name_lookup_listeners_first|].
        cbn. now rewrite existsb_app, Hs2, Hr2. }
      split.
      { intros p Hp. cbn in Hpup. rewrite Hp in Hpup.
        destruct Hpup as [Hp1 Hi].
        rewrite !existsb_app. cbn. rewrite existsb_app, Hq5, Hi, Hs5, Hr5.
        split; [reflexivity|]. now rewrite Hs7. }
      split; [discriminate|].
      split; [now rewrite Hs8, Hop|]. intros _.
      split; [reflexivity|].
      split; [apply Hs9; now rewrite Hrs|].
      right. destruct (settled rs) as [u|e'|]; [| |destruct Hcases].
      * destruct Hcases as (_ & Ho & _ & Ht & _). auto.
      * destruct Hcases as (_ & _ & ->). split; [now rewrite Hlt|].
        right. now rewrite Hst.
  - unfold puppet_name_returns in Hname.
    apply orb_false_iff in Hname as [Hn Hr].
    destruct (env hist ConfigSystemPuppetName) as [n|e] eqn:He;
      [discriminate|].
    unfold r. rewrite (@start_nameless names env w hist e Hn He). cbn.
    split; [reflexivity|]. split; [reflexivity|].
    split; [auto|]. split; [discriminate|]. split; [reflexivity|discriminate].
Qed.

(** X14.  Whatever the calls answer, [start()] on an instance that is not
    started registers no listener on the puppet after it called
    [puppet.start()]: the bridge is in place before the puppet starts. *)
Theorem start_registers_before_puppet_start (names : list EventName)
        (env : Env) (w : Wechaty) (hist : list Obs) :
  StateSwitch.on (state w) = StateSwitch.is_false ->
  lifeTimer w = None ->
  includes (listeners w) "error" = true ->
  listeners_first (obs (run env (start names) w hist)) = true.
Proof.
  intros Hoff Htimer Herr.
  exact (proj1 (proj2 (@start_frame names env w hist Hoff Htimer Herr))).
Qed.

Lemma start_registers_before_puppet_start_witness :
  listeners_first
    (obs (run obliging_env (start puppet_event_names) listening_bot [])) = true.
Proof.
  apply (@start_registers_before_puppet_start puppet_event_names obliging_env
           listening_bot []); reflexivity.
Defined.

(** X15.  [start()] on an instance whose puppet is set already does not
    initialize it again: the puppet is not resolved, no memory is
    plugged, no listener is registered on it a second time, and the
    puppet stays the same. *)
Theorem start_does_not_reinitialize (names : list EventName) (env : Env)
        (w : Wechaty) (hist : list Obs) (p : Puppet) :
  StateSwitch.on (state w) = StateSwitch.is_false ->
  lifeTimer w = None ->
  includes (listeners w) "error" = true ->
  puppet w = Some p ->
  existsb is_init_call (obs (run env (start names) w hist)) = false /\
  puppet (final (run env (start names) w hist)) = Some p.
Proof.
  intros Hoff Htimer Herr Hp.
  exact (proj1 (proj2 (proj2 (@start_frame names env w hist Hoff Htimer Herr)))
               p Hp).
Qed.

Lemma start_does_not_reinitialize_witness :
  let w := final (run obliging_env stop running_bot []) in
  existsb is_init_call
          (obs (run obliging_env (start puppet_event_names) w [])) = false /\
  puppet (final (run obliging_env (start puppet_event_names) w [])) =
  Some "wechaty-puppet-mock".
Proof.
  apply (@start_does_not_reinitialize puppet_event_names obliging_env
           (final (run obliging_env stop running_bot [])) []
           "wechaty-puppet-mock"); reflexivity.
Defined.

(** X16.  [start()] registers one more listener for [heartbeat] each time
    it goes through, and none when it gives up; the other listeners stay.
    ([stop()] removes none of them.) *)
Theorem start_adds_heartbeat_listener (names : list EventName) (env : Env)
        (w : Wechaty) (hist : list Obs) :
  StateSwitch.on (state w) = StateSwitch.is_false ->
  lifeTimer w = None ->
  includes (listeners w) "error" = true ->
  let r := run env (start names) w hist in
  listeners (final r) =
  if existsb is_start_event (obs r) then listeners w ++ ["heartbeat"]
  else listeners w.
Proof.
  intros Hoff Htimer Herr.
  exact (proj1 (@start_frame names env w hist Hoff Htimer Herr)).
Qed.

Lemma start_adds_heartbeat_listener_witness :
  let w := final (run obliging_env stop running_bot []) in
  let r := run obliging_env (start puppet_event_names) w [] in
  listeners (final r) =
  if existsb is_start_event (obs r) then listeners w ++ ["heartbeat"]
  else listeners w.
Proof.
  apply (@start_adds_heartbeat_listener puppet_event_names obliging_env
           (final (run obliging_env stop running_bot [])) []); reflexivity.
Defined.




(** X18.  When [start()] goes through (emits [start]), it has called
    [puppet.start()], and it has started an io client exactly when the
    option [ioToken] is a non-empty string. *)
Theorem start_io_by_token (names : list EventName) (env : Env)
        (w : Wechaty) (hist : list Obs) :
  StateSwitch.on (state w) = StateSwitch.is_false ->
  lifeTimer w = None ->
  includes (listeners w) "error" = true ->
  let r := run env (start names) w hist in
  existsb is_start_event (obs r) = true ->
  existsb is_puppet_start (obs r) = true /\
  existsb is_io_start (obs r) = truthy (opt_ioToken (options w)).
Proof.
  intros Hoff Htimer Herr.
  exact (proj1 (proj2 (proj2 (proj2
           (@start_frame names env w hist Hoff Htimer Herr))))).
Qed.

Lemma start_io_by_token_witness :
  let r := run obliging_env (start puppet_event_names) listening_bot [] in
  existsb is_puppet_start (obs r) = true /\
  existsb is_io_start (obs r) = truthy (opt_ioToken (options listening_bot)).
Proof.
  apply (@start_io_by_token puppet_event_names obliging_env listening_bot []);
    reflexivity.
Defined.

(** X19.  A bot can be restarted: after [start()] on an instance that is
    not started, has no life timer and has a listener for ['error'],
    however that [start()] ended, [stop()] resolves and leaves the state
    Off with no life timer, and a further [start()] resolves as well;
    the puppet name of the log line is taken to be available to the
    three calls. *)
Theorem start_stop_start (names : list EventName) (env : Env) (w : Wechaty)
        (hist hist' hist'' : list Obs) :
  StateSwitch.on (state w) = StateSwitch.is_false ->
  lifeTimer w = None ->
  includes (listeners w) "error" = true ->
  puppet_name_returns env w hist = true ->
  puppet_name_returns env w hist' = true ->
  puppet_name_returns env w hist'' = true ->
  let r1 := run env (start names) w hist in
  let r2 := run env stop (final r1) hist' in
  let r3 := run env (start names) (final r2) hist'' in
  settled r2 = Resolved tt /\
  StateSwitch.off (state (final r2)) = StateSwitch.is_true /\
  lifeTimer (final r2) = None /\
  settled r3 = Resolved tt.
Proof.
  intros Hoff Htimer Herr Hname Hname' Hname'' r1 r2 r3.
  destruct (@start_frame names env w hist Hoff Htimer Herr)
    as (L1 & _ & _ & _ & O1 & F1).
  fold r1 in L1, O1, F1. destruct (F1 Hname) as (_ & _ & S1). clear F1.
  assert (Herr1 : includes (listeners (final r1)) "error" = true).
  { rewrite L1. destruct (existsb is_start_event (obs r1));
      [now rewrite includes_heartbeat | assumption]. }
  assert (Hn1 : puppet_name_returns env (final r1) hist' = true)
    by now rewrite (@puppet_name_returns_options env w (final r1) hist' O1).
  assert (H2 : settled r2 = Resolved tt /\
               StateSwitch.off (state (final r2)) = StateSwitch.is_true /\
               lifeTimer (final r2) = None /\
               includes (listeners (final r2)) "error" = true /\
               options (final r2) = options w).
  { destruct (StateSwitch.off (state (final r1))) eqn:Eoff.
    - destruct (@stop_run env (final r1) hist' Eoff Herr1) as [Hpost Hrej].
      fold r2 in Hpost, Hrej.
      destruct Hpost as ((_ & _ & _ & _ & _ & Hl & _ & Ho & _) & Hcases).
      destruct (settled r2) as [[]|e|]; [| |destruct Hcases].
      + destruct Hcases as (_ & H2 & _ & H4 & _).
        rewrite Hl, Ho. auto.
      + destruct (Hrej e eq_refl) as [Hn _]. congruence.
    - exfalso. destruct S1 as [Hon|[_ [Hon|Hon]]];
        destruct (state (final r1)) as [[] []]; cbn in *; congruence.
    - unfold r2. rewrite (@stop_when_off env (final r1) hist' Eoff Hn1). cbn.
      destruct S1 as [Hon|[Ht _]].
      + destruct (state (final r1)) as [[] []]; cbn in *; congruence.
      + auto. }
  destruct H2 as (Hs2 & Ho2 & Ht2 & Herr2 & O2).
  split; [assumption|split; [assumption|split; [assumption|]]].
  assert (Hn2 : puppet_name_returns env (final r2) hist'' = true)
    by now rewrite (@puppet_name_returns_options env w (final r2) hist'' O2).
  destruct (@start_frame names env (final r2) hist'' (on_when_off _ Ho2)
                         Ht2 Herr2) as (_ & _ & _ & _ & _ & F3).
  exact (proj1 (F3 Hn2)).
Qed.

Lemma start_stop_start_witness :
  let r1 := run puppet_start_failing_env (start puppet_event_names)
                listening_bot [] in
  let r2 := run puppet_start_failing_env stop (final r1) [] in
  let r3 := run puppet_start_failing_env (start puppet_event_names)
                (final r2) [] in
  settled r2 = Resolved tt /\
  StateSwitch.off (state (final r2)) = StateSwitch.is_true /\
  lifeTimer (final r2) = None /\
  settled r3 = Resolved tt.
Proof.
  apply (@start_stop_start puppet_event_names puppet_start_failing_env
           listening_bot [] [] []); reflexivity.
Defined.
